(** * bin/generate-readme.js: discovery, metadata collection and README
    generation, embedded and verified.

    The script is sequential JavaScript.  Strings are sequences of UTF-16
    code units, objects are ordered property lists, the network, the file
    system and the console are threaded through an explicit world, and
    thrown errors are results of a small state-and-error monad. *)

From Stdlib Require Import String Ascii DecimalString.
From Stdlib Require Import List NArith ZArith Arith Bool Lia.
From Stdlib Require Import Permutation Sorted SpecFloat.
Import ListNotations.

Set Implicit Arguments.
Set Warnings "-register-all".

(** ** Strings *)

(** A JavaScript string: its UTF-16 code units. *)
Definition jsstring := list N.

(** String literals of the source, all of them ASCII. *)
Definition js (s : string) : jsstring :=
  map N_of_ascii (list_ascii_of_string s).
Arguments js s%_string.

Definition jsstring_eqb (a b : jsstring) : bool :=
  if list_eq_dec N.eq_dec a b then true else false.

(** LineTerminator of the language grammar: LF, CR, LS, PS. *)
Definition is_line_terminator (c : N) : bool :=
  (N.eqb c 10 || N.eqb c 13 || N.eqb c 8232 || N.eqb c 8233)%bool.

(** WhiteSpace of the language grammar (TAB, VT, FF, SP, NBSP, ZWNBSP and
    the Unicode space separators), the set String.prototype.trim strips
    together with the line terminators. *)
Definition is_white_space (c : N) : bool :=
  (N.eqb c 9 || N.eqb c 11 || N.eqb c 12 || N.eqb c 32 || N.eqb c 160
   || N.eqb c 5760 || (N.leb 8192 c && N.leb c 8202)
   || N.eqb c 8239 || N.eqb c 8287 || N.eqb c 12288 || N.eqb c 65279)%bool.

Definition is_trimmable (c : N) : bool :=
  (is_white_space c || is_line_terminator c)%bool.

Fixpoint trimStart (s : jsstring) : jsstring :=
  match s with
  | c :: s' => if is_trimmable c then trimStart s' else s
  | [] => []
  end.

Definition trimEnd (s : jsstring) : jsstring := rev (trimStart (rev s)).

(** String.prototype.trim *)
Definition trim (s : jsstring) : jsstring := trimEnd (trimStart s).

(** String.prototype.startsWith, at position 0. *)
Fixpoint startsWith (s search : jsstring) {struct search} : bool :=
  match search, s with
  | [], _ => true
  | c :: search', x :: s' => (N.eqb x c && startsWith s' search')%bool
  | _ :: _, [] => false
  end.

(** ** Regular expressions

    The three patterns of the script use literals, [.], [^], [$], grouping
    and the greedy quantifiers [*], [+] and [?]; no flag is set.  The
    matcher is the backtracking matcher of the language specification in
    continuation-passing style: a continuation receives the end index and
    the rest of the input and answers with the end of the whole match.
    Captures are not recorded: no replacement text of the script refers to
    one. *)

Inductive regex : Type :=
| Eps
| Chr (c : N)
| Dot
| Bol
| Eol
| Seq (r1 r2 : regex)
| Star (r : regex)
| Plus (r : regex)
| Opt (r : regex)
| Group (r : regex).

(** A literal run of characters. *)
Fixpoint lit (s : jsstring) : regex :=
  match s with
  | [] => Eps
  | c :: s' => Seq (Chr c) (lit s')
  end.

Definition continuation := nat -> jsstring -> option nat.
Definition matcher := nat -> jsstring -> continuation -> option nat.

(** RepeatMatcher with min = 0 and max = infinity, greedy: one more
    iteration is tried first, an iteration that consumes nothing is
    rejected, and the continuation is the fallback.  Every accepted
    iteration consumes input, so [length s] iterations are all there can
    be; [n] counts them down. *)
Fixpoint repeat_star (m : matcher) (n : nat) (p : nat) (s : jsstring)
    (k : continuation) : option nat :=
  match n with
  | O => k p s
  | S n' =>
    match m p s (fun p' s' =>
                   if Nat.eqb p' p then None else repeat_star m n' p' s' k) with
    | Some e => Some e
    | None => k p s
    end
  end.

Fixpoint run (r : regex) (p : nat) (s : jsstring) (k : continuation)
    : option nat :=
  match r with
  | Eps => k p s
  | Chr c =>
    match s with
    | x :: s' => if N.eqb x c then k (S p) s' else None
    | [] => None
    end
  | Dot =>
    match s with
    | x :: s' => if is_line_terminator x then None else k (S p) s'
    | [] => None
    end
  | Bol => if Nat.eqb p 0 then k p s else None
  | Eol => match s with [] => k p s | _ :: _ => None end
  | Seq r1 r2 => run r1 p s (fun p' s' => run r2 p' s' k)
  | Star r' => repeat_star (run r') (length s) p s k
  | Plus r' =>
    run r' p s (fun p' s' => repeat_star (run r') (length s') p' s' k)
  | Opt r' =>
    match run r' p s (fun p' s' => if Nat.eqb p' p then None else k p' s') with
    | Some e => Some e
    | None => k p s
    end
  | Group r' => run r' p s k
  end.

(** The continuation of a whole match. *)
Definition accept : continuation := fun e _ => Some e.

(** RegExpBuiltinExec without the global and sticky flags: the match is
    tried at index 0, 1, ..., length, and the first index that matches
    wins.  [p] is the index of the head of [s]; the answer is the start
    and the end of the match. *)
Fixpoint exec_from (r : regex) (p : nat) (s : jsstring) : option (nat * nat) :=
  match run r p s accept with
  | Some e => Some (p, e)
  | None =>
    match s with
    | [] => None
    | _ :: s' => exec_from r (S p) s'
    end
  end.

(** String.prototype.replace with a pattern without the global flag and
    a replacement text without [$]: the first match is replaced. *)
Definition regex_replace (r : regex) (replacement s : jsstring) : jsstring :=
  match exec_from r 0 s with
  | Some (b, e) => firstn b s ++ replacement ++ skipn e s
  | None => s
  end.

(** The pattern of line 76: start of input, an optional group
    [Google ], then [Cloud ]. *)
Definition re_cloud_prefix : regex :=
  Seq Bol (Seq (Opt (Group (lit (js "Google ")))) (lit (js "Cloud "))).

(** The pattern of line 87: any number of slashes, then end of input. *)
Definition re_trailing_slashes : regex := Seq (Star (Chr 47)) Eol.

(** The pattern of line 90: any number of groups, each [docs/] followed
    by any number of groups of one or more [.], then end of input. *)
Definition re_docs_tail : regex :=
  Seq (Star (Group (Seq (lit (js "docs/")) (Star (Group (Plus Dot)))))) Eol.


(** String.prototype.replace with a string pattern: the first occurrence
    is replaced, and in the replacement text [$$], [$&], [$`] and [$']
    stand for a dollar sign, the matched text, the text before it and the
    text after it (GetSubstitution with no captures; every other use of
    [$] is literal). *)
Fixpoint expand_replacement (matched before after repl : jsstring)
    : jsstring :=
  match repl with
  | 36 :: 36 :: r => 36 :: expand_replacement matched before after r
  | 36 :: 38 :: r => matched ++ expand_replacement matched before after r
  | 36 :: 96 :: r => before ++ expand_replacement matched before after r
  | 36 :: 39 :: r => after ++ expand_replacement matched before after r
  | c :: r => c :: expand_replacement matched before after r
  | [] => []
  end%N.

(** The text before and after the first occurrence of [pat]. *)
Fixpoint find_first (pat s : jsstring) : option (jsstring * jsstring) :=
  if startsWith s pat then Some ([], skipn (length pat) s)
  else match s with
       | [] => None
       | c :: s' =>
         match find_first pat s' with
         | Some (b, a) => Some (c :: b, a)
         | None => None
         end
       end.

Definition string_replace (pat repl s : jsstring) : jsstring :=
  match find_first pat s with
  | Some (b, a) => b ++ expand_replacement pat b a repl ++ a
  | None => s
  end.

(** ** Values *)

(** What JSON.parse returns.  An object is its own properties in
    enumeration order; a number is an IEEE 754 binary64 value. *)
Inductive json : Type :=
| JNull
| JBool (b : bool)
| JNum (x : spec_float)
| JStr (s : jsstring)
| JArr (l : list json)
| JObj (l : list (jsstring * json)).

(** The result of reading a property: [None] is [undefined]. *)
Definition value := option json.

(** ToBoolean *)
Definition ToBoolean (v : value) : bool :=
  match v with
  | None | Some JNull => false
  | Some (JBool b) => b
  | Some (JNum (S754_zero _)) | Some (JNum S754_nan) => false
  | Some (JNum _) => true
  | Some (JStr s) => match s with [] => false | _ :: _ => true end
  | Some (JArr _) | Some (JObj _) => true
  end.

Fixpoint assoc (A : Type) (k : jsstring) (l : list (jsstring * A)) : option A :=
  match l with
  | [] => None
  | (k', v) :: l' => if jsstring_eqb k' k then Some v else assoc k l'
  end.

(** Assignment to a property with a name that is not an array index: an
    existing property keeps its place, a new one goes last. *)
Fixpoint assoc_set (A : Type) (k : jsstring) (v : A) (l : list (jsstring * A))
    : list (jsstring * A) :=
  match l with
  | [] => [(k, v)]
  | (k', v') :: l' =>
    if jsstring_eqb k' k then (k, v) :: l' else (k', v') :: assoc_set k v l'
  end.

(** What the script throws or lets through. *)
Inductive exn : Type :=
| TypeError
| SyntaxError
| HttpError (status : N)     (* GaxiosError carrying [response.status] *)
| NetworkError               (* a failed request without a response *)
| FsError                    (* readFileSync on a missing file, a failed write *)
| MissingToken.              (* Error('Please include a GITHUB_TOKEN env var.') *)

Inductive result (A : Type) : Type :=
| Ok (a : A)
| Err (e : exn).
Arguments Ok {A} a.
Arguments Err {A} e.

(** [metadata.k]: reading a property of [null] throws, a primitive or an
    array has none of the names the script reads. *)
Definition get_field (v : json) (k : jsstring) : result value :=
  match v with
  | JNull => Err TypeError
  | JObj l => Ok (assoc k l)
  | _ => Ok None
  end.

(** [metadata.k = x] outside strict mode: on a primitive the assignment
    is dropped, and a named property of an array is not part of its JSON
    text. *)
Definition set_field (v : json) (k : jsstring) (x : json) : json :=
  match v with
  | JObj l => JObj (assoc_set k x l)
  | _ => v
  end.

(** ** The world: network, files and console *)

Inductive request : Type :=
| GithubGet (url : jsstring)   (* through the authenticated client *)
| Head (url : jsstring).       (* the probe of line 98 *)

(** The [data] of a response, as far as the script reads it. *)
Inductive body : Type :=
| SearchResults (full_names : list jsstring)
| FileContents (content : jsstring)
| OtherBody.

Inductive reply : Type :=
| Response (status : N) (link : option jsstring) (data : body)
| NoResponse.

Inductive console_entry : Type :=
| Info (line : jsstring)
| Dump (e : exn).

Record World : Type := mkWorld {
  requests : list request;          (* newest first *)
  files : list (jsstring * jsstring);
  console : list console_entry      (* newest first *)
}.

(** What the script takes from its runtime and its packages.  The remote
    side answers a request knowing the requests made before it. *)
Class Host : Type := {
  GITHUB_TOKEN : option jsstring;
  server : list request -> request -> reply;
  toLowerCase : jsstring -> jsstring;
  localeCompare : jsstring -> jsstring -> Z;
  base64_utf8 : jsstring -> jsstring;
  JSON_parse : jsstring -> option json;       (* [None]: SyntaxError *)
  JSON_stringify : json -> jsstring;          (* with indent 2 *)
  numberToString : spec_float -> jsstring;
  parseLinkHeader : jsstring -> list (jsstring * jsstring);
  URL_href : jsstring -> option jsstring;     (* [None]: TypeError *)
  figures_tick : jsstring;
  figures_cross : jsstring;
  chalk_green : jsstring -> jsstring;
  chalk_red : jsstring -> jsstring;
  (* whether writing a text to a path fails, given the files there are:
     [None] says it succeeds, [Some None] that it fails and leaves the
     file as it was, [Some (Some t)] that it fails and leaves [t] in it *)
  write_failure :
    list (jsstring * jsstring) -> jsstring -> jsstring -> option (option jsstring)
}.

(** State and errors. *)
Definition M (A : Type) : Type := World -> result A * World.

Definition ret (A : Type) (a : A) : M A := fun w => (Ok a, w).
Definition throw (A : Type) (e : exn) : M A := fun w => (Err e, w).
Definition bind (A B : Type) (c : M A) (f : A -> M B) : M B :=
  fun w => match c w with
           | (Ok a, w') => f a w'
           | (Err e, w') => (Err e, w')
           end.
Definition try_catch (A : Type) (c : M A) (h : exn -> M A) : M A :=
  fun w => match c w with
           | (Ok a, w') => (Ok a, w')
           | (Err e, w') => h e w'
           end.
Definition lift (A : Type) (r : result A) : M A := fun w => (r, w).
Arguments throw {A} e.

Notation "x <- c ;; k" := (bind c (fun x => k))
  (at level 61, c at next level, right associativity).
Notation "c ;;; k" := (bind c (fun _ => k))
  (at level 61, right associativity).

(** Errors alone, for the code that has no other effect. *)
Definition rbind (A B : Type) (r : result A) (f : A -> result B) : result B :=
  match r with
  | Ok a => f a
  | Err e => Err e
  end.
Notation "x <-- c ;; k" := (rbind c (fun x => k))
  (at level 61, c at next level, right associativity).

(** ** The script *)

Section Script.
Context {host : Host}.

(** ToString of a JSON value, as a template literal applies it.  An array
    joins its elements with commas, [null] elements as the empty string;
    a plain object is [[object Object]], unless an own [toString] property
    (never callable in JSON) hides the inherited one, and then the
    conversion throws whatever [valueOf] is. *)
Fixpoint ToString_json (v : json) : result jsstring :=
  match v with
  | JNull => Ok (js "null")
  | JBool true => Ok (js "true")
  | JBool false => Ok (js "false")
  | JNum x => Ok (numberToString x)
  | JStr s => Ok s
  | JArr l =>
    (fix join (first : bool) (l : list json) : result jsstring :=
       match l with
       | [] => Ok []
       | x :: l' =>
         match (match x with JNull => Ok [] | _ => ToString_json x end) with
         | Err e => Err e
         | Ok sx =>
           match join false l' with
           | Err e => Err e
           | Ok sl => Ok ((if first then [] else js ",") ++ sx ++ sl)
           end
         end
       end) true l
  | JObj l =>
    match assoc (js "toString") l with
    | Some _ => Err TypeError
    | None => Ok (js "[object Object]")
    end
  end.

Definition ToString (v : value) : result jsstring :=
  match v with
  | None => Ok (js "undefined")
  | Some x => ToString_json x
  end.

(** Number.prototype.toString of a length. *)
Definition nat_to_string (n : nat) : jsstring :=
  js (NilEmpty.string_of_uint (Nat.to_uint n)).

(** *** Effects *)

Definition console_info (line : jsstring) : M unit :=
  fun w => (Ok tt, mkWorld (requests w) (files w) (Info line :: console w)).

Definition console_error (e : exn) : World -> World :=
  fun w => mkWorld (requests w) (files w) (Dump e :: console w).

Definition readFileSync (path : jsstring) : M jsstring :=
  fun w => match assoc path (files w) with
           | Some text => (Ok text, w)
           | None => (Err FsError, w)
           end.

(** [writeFileSync(path, text, 'utf8')]: the file holds the text, unless
    the write fails; a failed write throws and leaves the file as the
    host says, every other file as it was. *)
Definition writeFileSync (path text : jsstring) : M unit :=
  fun w =>
    match write_failure (files w) path text with
    | None =>
      (Ok tt,
       mkWorld (requests w) (assoc_set path text (files w)) (console w))
    | Some None => (Err FsError, w)
    | Some (Some remains) =>
      (Err FsError,
       mkWorld (requests w) (assoc_set path remains (files w)) (console w))
    end.

(** One exchange with the remote side. *)
Definition exchange (rq : request) : M reply :=
  fun w => (Ok (server (requests w) rq),
            mkWorld (rq :: requests w) (files w) (console w)).

(** [github.request({ url })]: the client's default [validateStatus]
    accepts 200 to 299 and throws on every other status. *)
Definition github_request (url : jsstring) : M (option jsstring * body) :=
  r <- exchange (GithubGet url) ;;
  match r with
  | NoResponse => throw NetworkError
  | Response status link data =>
    if (N.leb 200 status && N.ltb status 300)%bool then ret (link, data)
    else throw (HttpError status)
  end.

(** [request({ url, method: 'HEAD', validateStatus: () => true })]: every
    status is returned. *)
Definition head_request (url : jsstring) : M N :=
  r <- exchange (Head url) ;;
  match r with
  | NoResponse => throw NetworkError
  | Response status _ _ => ret status
  end.

(** Lines 33-36. *)
Definition checkpoint (message : jsstring) (success : bool) : M unit :=
  let prefix :=
    if success then chalk_green figures_tick else chalk_red figures_cross in
  console_info (prefix ++ js " " ++ message).

Definition baseUrl : jsstring := js "https://api.github.com".

(** *** Own properties in enumeration order *)

Fixpoint digits_value (s : jsstring) (acc : N) : option N :=
  match s with
  | [] => Some acc
  | c :: s' =>
    if (N.leb 48 c && N.leb c 57)%bool
    then digits_value s' (acc * 10 + (c - 48))%N
    else None
  end.

(** The array index a property name denotes: a canonical decimal numeral
    below 2^32 - 1. *)
Definition array_index (k : jsstring) : option N :=
  match k with
  | [] => None
  | [48%N] => Some 0%N
  | 48%N :: _ => None
  | _ =>
    match digits_value k 0 with
    | Some n => if N.ltb n 4294967295 then Some n else None
    | None => None
    end
  end.

(** A new array-index property goes before the first property that is
    not an array index or is a larger one. *)
Fixpoint insert_index (A : Type) (i : N) (k : jsstring) (v : A)
    (l : list (jsstring * A)) : list (jsstring * A) :=
  match l with
  | [] => [(k, v)]
  | (k', v') :: l' =>
    match array_index k' with
    | Some j =>
      if N.ltb j i then (k', v') :: insert_index i k v l' else (k, v) :: l
    | None => (k, v) :: l
    end
  end.

(** [object[k] = v] on an ordinary object, kept in the order [for-in]
    enumerates it: array indices ascending, then the other names in the
    order they were created.  This is the assignment for every name but
    [__proto__], which no repository identifier is: identifiers are of
    the form owner/name, and the statements about what the mapping holds
    assume the slash. *)
Definition object_set (A : Type) (k : jsstring) (v : A)
    (l : list (jsstring * A)) : list (jsstring * A) :=
  match array_index k, assoc k l with
  | Some i, None => insert_index i k v l
  | _, _ => assoc_set k v l
  end.

(** *** collectRepoMetadata, lines 38-56 *)

(** The body of the loop: the [try] and its [catch]. *)
Definition collect_one (repoMetadata : list (jsstring * json))
    (repo : jsstring) : M (list (jsstring * json)) :=
  try_catch
    (let url :=
       baseUrl ++ js "/repos/" ++ repo ++ js "/contents/.repo-metadata.json" in
     res <- github_request url ;;
     match snd res with
     | FileContents content =>
       match JSON_parse (base64_utf8 content) with
       | Some parsed =>
         checkpoint (repo ++ js " found .repo-metadata.json") true ;;;
         ret (object_set repo parsed repoMetadata)
       | None => throw SyntaxError
       end
     | _ => throw TypeError          (* Buffer.from(undefined, 'base64') *)
     end)
    (fun err =>
       match err with
       | HttpError status =>
         if N.eqb status 404
         then checkpoint (repo ++ js " had no .repo-metadata.json") false ;;;
              ret repoMetadata
         else throw err
       | _ => throw err
       end).

Fixpoint collect_loop (repos : list jsstring)
    (repoMetadata : list (jsstring * json)) : M (list (jsstring * json)) :=
  match repos with
  | [] => ret repoMetadata
  | repo :: rest =>
    repoMetadata' <- collect_one repoMetadata repo ;;
    collect_loop rest repoMetadata'
  end.

Definition collectRepoMetadata (repos : list jsstring)
    : M (list (jsstring * json)) :=
  collect_loop repos [].

(** *** generateReadme, lines 61-124 *)

(** Line 76. *)
Definition normalize_name (name_pretty : jsstring) : jsstring :=
  regex_replace re_cloud_prefix [] name_pretty.

(** Lines 85-90: the candidate before the special case. *)
Definition supportDocsUrl (product_documentation : jsstring) : jsstring :=
  regex_replace re_docs_tail (js "docs/getting-support")
    (regex_replace re_trailing_slashes (js "/") product_documentation).

Definition stackdriver_support : jsstring :=
  js "https://cloud.google.com/stackdriver/docs/getting-support".

(** Line 93. *)
Definition is_stackdriver (name_pretty : jsstring) : bool :=
  startsWith (trim (toLowerCase name_pretty)) (js "stackdriver").

(** Lines 85-95: the URL that is probed. *)
Definition candidate (name_pretty product_documentation : jsstring)
    : jsstring :=
  if is_stackdriver name_pretty then stackdriver_support
  else supportDocsUrl product_documentation.

(** The body of the [for-in] loop, lines 68-110: [None] is [continue],
    [Some m] is the record pushed.  [name] stands for the property
    [name_pretty] just assigned, which line 93 reads back. *)
Definition process_record (metadata : json) : M (option json) :=
  api_id <- lift (get_field metadata (js "api_id")) ;;
  if negb (ToBoolean api_id) then ret None
  else
    name_pretty <- lift (get_field metadata (js "name_pretty")) ;;
    match name_pretty with
    | Some (JStr old_name) =>
      let name := normalize_name old_name in
      let metadata1 := set_field metadata (js "name_pretty") (JStr name) in
      product_documentation <-
        lift (get_field metadata1 (js "product_documentation")) ;;
      if ToBoolean product_documentation then
        match product_documentation with
        | Some (JStr docs) =>
          let url := candidate name docs in
          status <- head_request url ;;
          let remoteUrlExists := negb (N.eqb status 404) in
          let url' := if remoteUrlExists then url else docs in
          ret (Some (set_field metadata1 (js "support_documentation")
                       (JStr url')))
        | _ => throw TypeError       (* [replace] is not a function *)
        end
      else ret (Some metadata1)
    | _ => throw TypeError           (* [replace] of a non-string *)
    end.

Fixpoint collect_libraries (entries : list (jsstring * json))
    (libraries : list json) : M (list json) :=
  match entries with
  | [] => ret libraries
  | (_, metadata) :: rest =>
    pushed <- process_record metadata ;;
    match pushed with
    | Some m => collect_libraries rest (libraries ++ [m])
    | None => collect_libraries rest libraries
    end
  end.

(** The comparator of line 113: [a.name_pretty.localeCompare(b.name_pretty)].
    Only a string has the method; the argument is converted to a string. *)
Definition compare_libraries (a b : json) : result Z :=
  match get_field a (js "name_pretty") with
  | Ok (Some (JStr x)) =>
    match get_field b (js "name_pretty") with
    | Ok vb =>
      match ToString vb with
      | Ok y => Ok (localeCompare x y)
      | Err e => Err e
      end
    | Err e => Err e
    end
  | Ok _ => Err TypeError
  | Err e => Err e
  end.

(** Array.prototype.sort with a comparator.  The language fixes the
    result for a consistent comparator: the stable arrangement in which
    [a] precedes [b] whenever the comparator is negative on them.  It is
    computed here by insertion, an element going before the first one it
    does not exceed; an exception of the comparator ends the sort. *)
Fixpoint insert_sorted (A : Type) (cmp : A -> A -> result Z) (x : A)
    (l : list A) : result (list A) :=
  match l with
  | [] => Ok [x]
  | y :: l' =>
    match cmp x y with
    | Err e => Err e
    | Ok c =>
      if (c <=? 0)%Z then Ok (x :: l)
      else match insert_sorted cmp x l' with
           | Ok l'' => Ok (y :: l'')
           | Err e => Err e
           end
    end
  end.

Fixpoint sort_by (A : Type) (cmp : A -> A -> result Z) (l : list A)
    : result (list A) :=
  match l with
  | [] => Ok []
  | x :: l' =>
    match sort_by cmp l' with
    | Ok sorted => insert_sorted cmp x sorted
    | Err e => Err e
    end
  end.

(** The template literal of line 120. *)
Definition render_row (lib : json) : result jsstring :=
  name_pretty <-- get_field lib (js "name_pretty") ;;
  name_pretty <-- ToString name_pretty ;;
  repo <-- get_field lib (js "repo") ;;
  repo <-- ToString repo ;;
  client_documentation <-- get_field lib (js "client_documentation") ;;
  client_documentation <-- ToString client_documentation ;;
  distribution_name <-- get_field lib (js "distribution_name") ;;
  distribution_name <-- ToString distribution_name ;;
  api_id <-- get_field lib (js "api_id") ;;
  api_id <-- ToString api_id ;;
  requires_billing <-- get_field lib (js "requires_billing") ;;
  Ok (js "| [" ++ name_pretty ++ js "](https://github.com/" ++ repo
      ++ js ") | [:notebook:](" ++ client_documentation
      ++ js ") | `npm i " ++ distribution_name
      ++ js "` | [enable](https://console.cloud.google.com/flows/enableapi?apiid="
      ++ api_id ++ js ") | "
      ++ (if ToBoolean requires_billing then figures_cross else figures_tick)
      ++ [32; 124; 10]%N).

(** Lines 118-121: [partial] grows by one row per library. *)
Fixpoint render_rows (libraries : list json) (partial : jsstring)
    : result jsstring :=
  match libraries with
  | [] => Ok partial
  | lib :: rest =>
    row <-- render_row lib ;;
    render_rows rest (partial ++ row)
  end.

Definition generateReadme (repoMetadata : list (jsstring * json)) : M unit :=
  template <- readFileSync (js "./bin/README.mustache") ;;
  libraries <- collect_libraries repoMetadata [] ;;
  libraries <- lift (sort_by compare_libraries libraries) ;;
  writeFileSync (js "./libraries.json") (JSON_stringify (JArr libraries)) ;;;
  partial <- lift (render_rows libraries []) ;;
  writeFileSync (js "./README.md")
    (string_replace (js "{{libraries}}") partial template).

(** *** getRepos, lines 126-144 *)

(** The URL of line 128 after the two [searchParams.set], serialized. *)
Definition search_url : jsstring :=
  js "https://api.github.com/search/repositories?q=nodejs+in%3A.repo-metadata.json+org%3Agoogleapis+is%3Apublic+archived%3Afalse&per_page=100".

(** Lines 135-141: the next URL, if the response has a non-empty [link]
    header with a [next] relation. *)
Definition next_url (link : option jsstring) : result (option jsstring) :=
  match link with
  | Some (c :: header) =>
    match assoc (js "next") (parseLinkHeader (c :: header)) with
    | Some u =>
      match URL_href u with
      | Some href => Ok (Some href)
      | None => Err TypeError
      end
    | None => Ok None
    end
  | _ => Ok None
  end.

(** The [while] loop; [fuel] bounds the number of pages requested, and
    [None] says the bound was reached with a next page still to fetch. *)
Fixpoint getRepos_loop (fuel : nat) (url : jsstring) (repos : list jsstring)
    (w : World) : option (result (list jsstring) * World) :=
  match fuel with
  | O => None
  | S fuel' =>
    match github_request url w with
    | (Err e, w1) => Some (Err e, w1)
    | (Ok (link, data), w1) =>
      match data with
      | SearchResults full_names =>
        let repos' := repos ++ full_names in
        match next_url link with
        | Err e => Some (Err e, w1)
        | Ok None => Some (Ok repos', w1)
        | Ok (Some url') => getRepos_loop fuel' url' repos' w1
        end
      | _ => Some (Err TypeError, w1)   (* [items] is undefined *)
      end
    end
  end.

Definition getRepos (fuel : nat) (w : World)
    : option (result (list jsstring) * World) :=
  getRepos_loop fuel search_url [] w.

(** *** main, lines 146-152 *)

Definition main (fuel : nat) (w : World) : option (result unit * World) :=
  match getRepos fuel w with
  | None => None
  | Some (Err e, w1) => Some (Err e, w1)
  | Some (Ok repos, w1) =>
    Some ((checkpoint (js "Discovered " ++ nat_to_string (length repos)
                       ++ js " node.js repos with metadata") true ;;;
           repoMetadata <- collectRepoMetadata repos ;;
           generateReadme repoMetadata) w1)
  end.

(** The module body: the check of lines 22-25, then
    [main().catch(console.error)]. *)
Definition script (fuel : nat) (w : World) : option (result unit * World) :=
  match GITHUB_TOKEN with
  | Some (_ :: _) =>
    match main fuel w with
    | None => None
    | Some (Ok tt, w') => Some (Ok tt, w')
    | Some (Err e, w') => Some (Ok tt, console_error e w')
    end
  | _ => Some (Err MissingToken, w)
  end.

End Script.

(** ** Sample hosts

    Concrete runtimes on which the script is evaluated: ASCII case
    mapping, comparison of the case-folded code units, a remote side and a
    parser given by tables, a link header that is the next URL itself. *)

Definition ascii_toLowerCase (s : jsstring) : jsstring :=
  map (fun c => if (N.leb 65 c && N.leb c 90)%bool then (c + 32)%N else c) s.

Fixpoint codeunit_compare (a b : jsstring) : Z :=
  match a, b with
  | [], [] => 0
  | [], _ :: _ => -1
  | _ :: _, [] => 1
  | x :: a', y :: b' =>
    match N.compare x y with
    | Lt => -1
    | Gt => 1
    | Eq => codeunit_compare a' b'
    end
  end%Z.

(** A collation that compares the case-folded strings. *)
Definition sample_collate (a b : jsstring) : Z :=
  codeunit_compare (ascii_toLowerCase a) (ascii_toLowerCase b).

Definition request_eqb (a b : request) : bool :=
  match a, b with
  | GithubGet x, GithubGet y => jsstring_eqb x y
  | Head x, Head y => jsstring_eqb x y
  | _, _ => false
  end.

Fixpoint table_server (table : list (request * reply))
    (history : list request) (rq : request) : reply :=
  match table with
  | [] => NoResponse
  | (rq', r) :: table' =>
    if request_eqb rq' rq then r else table_server table' history rq
  end.

Fixpoint compact_json (v : json) : jsstring :=
  match v with
  | JNull => js "null"
  | JBool true => js "true"
  | JBool false => js "false"
  | JNum _ => js "0"
  | JStr s => 34%N :: s ++ [34%N]
  | JArr l => js "[" ++ concat (map (fun x => compact_json x ++ js ",") l)
              ++ js "]"
  | JObj l =>
    js "{" ++ concat (map (fun kx => 34%N :: fst kx ++ [34; 58]%N
                                    ++ compact_json (snd kx) ++ js ",") l)
    ++ js "}"
  end.

Definition sample_host (replies : list (request * reply))
    (documents : list (jsstring * json)) : Host := {|
  GITHUB_TOKEN := Some (js "secret");
  server := table_server replies;
  toLowerCase := ascii_toLowerCase;
  localeCompare := sample_collate;
  base64_utf8 := fun s => s;
  JSON_parse := fun s => assoc s documents;
  JSON_stringify := compact_json;
  numberToString := fun _ => js "0";
  parseLinkHeader := fun h => [(js "next", h)];
  URL_href := fun u => Some u;
  figures_tick := [10004%N];
  figures_cross := [10006%N];
  chalk_green := fun s => s;
  chalk_red := fun s => s;
  write_failure := fun _ _ _ => None
|}.

Definition contents_url (repo : jsstring) : jsstring :=
  baseUrl ++ js "/repos/" ++ repo ++ js "/contents/.repo-metadata.json".

Definition world0 : World :=
  mkWorld [] [(js "./bin/README.mustache", js "# Libraries {{libraries}}")] [].

(** The end-to-end scenario: one repository with a metadata file, one
    without. *)
Definition vision_metadata : json :=
  JObj [(js "api_id", JStr (js "x"));
        (js "name_pretty", JStr (js "Google Cloud Vision"));
        (js "product_documentation",
         JStr (js "https://cloud.google.com/vision/docs/"));
        (js "client_documentation", JStr (js "..."));
        (js "distribution_name", JStr (js "pkg"));
        (js "requires_billing", JBool true)].

Definition scenario_host : Host :=
  sample_host
    [(GithubGet search_url,
      Response 200 None
        (SearchResults [js "googleapis/nodejs-vision"; js "googleapis/none"]));
     (GithubGet (contents_url (js "googleapis/nodejs-vision")),
      Response 200 None (FileContents (js "vision")));
     (GithubGet (contents_url (js "googleapis/none")),
      Response 404 None OtherBody);
     (Head (js "https://cloud.google.com/vision/docs/getting-support"),
      Response 200 None OtherBody)]
    [(js "vision", vision_metadata)].

(** A Stackdriver product whose support page does not exist. *)
Definition logging_metadata : json :=
  JObj [(js "api_id", JStr (js "logging.googleapis.com"));
        (js "name_pretty", JStr (js "Stackdriver Logging"));
        (js "product_documentation",
         JStr (js "https://cloud.google.com/logging/docs"))].

Definition not_found_host : Host :=
  sample_host [(Head stackdriver_support, Response 404 None OtherBody)] [].

(** A metadata file without a product documentation URL that brings its
    own [support_documentation]. *)
Definition legacy_fields : list (jsstring * json) :=
  [(js "api_id", JStr (js "x"));
   (js "name_pretty", JStr (js "Cloud Foo"));
   (js "support_documentation", JStr (js "https://example.com/help"))].

Definition legacy_metadata : json := JObj legacy_fields.

Definition offline_host : Host := sample_host [] [].

(** A search whose second page lists the repository of the first page
    again. *)
Definition second_page : jsstring :=
  js "https://api.github.com/search/repositories?page=2".

Definition repeating_host : Host :=
  sample_host
    [(GithubGet search_url,
      Response 200 (Some second_page) (SearchResults [js "googleapis/a"]));
     (GithubGet second_page,
      Response 200 None (SearchResults [js "googleapis/a"]))]
    [].

(** A record without [api_id]. *)
Definition anonymous_metadata : json :=
  JObj [(js "name_pretty", JStr (js "Cloud Nothing"));
        (js "product_documentation",
         JStr (js "https://cloud.google.com/nothing/docs/"))].

(** A mapping of three records: two libraries, listed against the order
    of their names, and a record without [api_id]. *)
Definition datastore_metadata : json :=
  JObj [(js "name_pretty", JStr (js "Cloud Datastore"));
        (js "api_id", JStr (js "datastore.googleapis.com"));
        (js "product_documentation",
         JStr (js "https://cloud.google.com/datastore/docs"));
        (js "requires_billing", JBool false)].

Definition catalog : list (jsstring * json) :=
  [(js "googleapis/nodejs-vision", vision_metadata);
   (js "googleapis/nothing", anonymous_metadata);
   (js "googleapis/nodejs-datastore", datastore_metadata)].

Definition catalog_host : Host :=
  sample_host
    [(Head (js "https://cloud.google.com/vision/docs/getting-support"),
      Response 200 None OtherBody);
     (Head (js "https://cloud.google.com/datastore/docs/getting-support"),
      Response 404 None OtherBody)]
    [].

(** A discovery of two repositories, the first without a metadata file,
    the second answered with a server error. *)
Definition failing_host : Host :=
  sample_host
    [(GithubGet search_url,
      Response 200 None
        (SearchResults [js "googleapis/none"; js "googleapis/broken"]));
     (GithubGet (contents_url (js "googleapis/none")),
      Response 404 None OtherBody);
     (GithubGet (contents_url (js "googleapis/broken")),
      Response 500 None OtherBody)]
    [].

(** ** Vocabulary of the statements *)

(** The input a pattern matches, read off the pattern: [matches r p w rest]
    says that [r] matches the text [w] at index [p] when [rest] follows.
    A repetition is a sequence of non-empty iterations. *)
Inductive iter (P : nat -> jsstring -> jsstring -> Prop)
    : nat -> jsstring -> jsstring -> Prop :=
| iter_done p rest : iter P p [] rest
| iter_step p w1 w2 rest :
    w1 <> [] -> P p w1 (w2 ++ rest) ->
    iter P (p + length w1) w2 rest ->
    iter P p (w1 ++ w2) rest.

Fixpoint matches (r : regex) (p : nat) (w rest : jsstring) : Prop :=
  match r with
  | Eps => w = []
  | Chr c => w = [c]
  | Dot => exists c, w = [c] /\ is_line_terminator c = false
  | Bol => w = [] /\ p = 0
  | Eol => w = [] /\ rest = []
  | Seq r1 r2 =>
    exists w1 w2, w = w1 ++ w2 /\ matches r1 p w1 (w2 ++ rest)
                  /\ matches r2 (p + length w1) w2 rest
  | Star r' => iter (matches r') p w rest
  | Plus r' =>
    exists w1 w2, w = w1 ++ w2 /\ matches r' p w1 (w2 ++ rest)
                  /\ iter (matches r') (p + length w1) w2 rest
  | Opt r' => w = [] \/ matches r' p w rest
  | Group r' => matches r' p w rest
  end.

Definition slash : N := 47%N.

Definition all_slashes (w : jsstring) : bool := forallb (N.eqb slash) w.

Definition no_line_terminator (w : jsstring) : bool :=
  forallb (fun c => negb (is_line_terminator c)) w.

(** What the pattern of line 90 can match up to the end of the input:
    nothing, or a text that begins with [docs/] and stays on one line. *)
Definition docs_tail (w : jsstring) : bool :=
  match w with
  | [] => true
  | _ :: _ => (startsWith w (js "docs/") && no_line_terminator w)%bool
  end.

(** The group the pattern of line 90 repeats. *)
Definition docs_group : regex :=
  Group (Seq (lit (js "docs/")) (Star (Group (Plus Dot)))).


(** The properties of a record other than the two the script assigns. *)
Definition untouched (kv : jsstring * json) : bool :=
  negb (jsstring_eqb (fst kv) (js "name_pretty")
        || jsstring_eqb (fst kv) (js "support_documentation")).

(** [lib] is [metadata] with [name_pretty] normalized, with
    [support_documentation] assigned a string when there is a product
    documentation URL and left alone otherwise, and with every other
    property as it was, in the same order. *)
Definition only_derived_fields_changed (metadata lib : json) : Prop :=
  exists l l' np,
    metadata = JObj l /\ lib = JObj l'
    /\ filter untouched l' = filter untouched l
    /\ (forall k, k <> js "name_pretty" -> k <> js "support_documentation" ->
          assoc k l' = assoc k l)
    /\ assoc (js "name_pretty") l = Some (JStr np)
    /\ assoc (js "name_pretty") l' = Some (JStr (normalize_name np))
    /\ (ToBoolean (assoc (js "product_documentation") l) = false ->
        assoc (js "support_documentation") l'
        = assoc (js "support_documentation") l)
    /\ (ToBoolean (assoc (js "product_documentation") l) = true ->
        exists url, assoc (js "support_documentation") l' = Some (JStr url)).

Section Outputs.
Context {host : Host}.

(** The two files after a run from [w] to [w'] hold [sorted]: the JSON
    file its serialization, the README the template with one row per
    element, in the order of [sorted]. *)
Definition written (w w' : World) (sorted : list json) : Prop :=
  exists template rows,
    assoc (js "./bin/README.mustache") (files w) = Some template
    /\ Forall2 (fun lib row => render_row lib = Ok row) sorted rows
    /\ assoc (js "./libraries.json") (files w')
       = Some (JSON_stringify (JArr sorted))
    /\ assoc (js "./README.md") (files w')
       = Some (string_replace (js "{{libraries}}") (concat rows) template).

(** A library whose [name_pretty] is a string. *)
Definition named (lib : json) : Prop :=
  exists x, get_field lib (js "name_pretty") = Ok (Some (JStr x)).




(** The answers to the fetch of a metadata file that end the run, each
    with what is thrown: an HTTP status that is neither a success nor 404,
    no response at all, a success whose content does not parse, a success
    without content. *)
Inductive fetch_fails : reply -> exn -> Prop :=
| fails_status status link data :
    (N.leb 200 status && N.ltb status 300)%bool = false ->
    status <> 404%N ->
    fetch_fails (Response status link data) (HttpError status)
| fails_network : fetch_fails NoResponse NetworkError
| fails_parse status link content :
    (N.leb 200 status && N.ltb status 300)%bool = true ->
    JSON_parse (base64_utf8 content) = None ->
    fetch_fails (Response status link (FileContents content)) SyntaxError
| fails_content status link data :
    (N.leb 200 status && N.ltb status 300)%bool = true ->
    (forall content, data <> FileContents content) ->
    fetch_fails (Response status link data) TypeError.

(** The world after the summary line of [main]. *)
Definition announced (repos : list jsstring) (w : World) : World :=
  snd (checkpoint (js "Discovered " ++ nat_to_string (length repos)
                   ++ js " node.js repos with metadata") true w).

(** The exchanges of a discovery: from [w], requesting [url] and then
    every next link, the responses carry [pages], the last one has no next
    link, and the world is then [w']. *)
Inductive page_chain : World -> jsstring -> list (list jsstring) -> World
    -> Prop :=
| chain_last w url link full_names w1 :
    github_request url w = (Ok (link, SearchResults full_names), w1) ->
    next_url link = Ok None ->
    page_chain w url [full_names] w1
| chain_next w url link full_names w1 url' pages w' :
    github_request url w = (Ok (link, SearchResults full_names), w1) ->
    next_url link = Ok (Some url') ->
    page_chain w1 url' pages w' ->
    page_chain w url (full_names :: pages) w'.

End Outputs.

(** ** Vocabulary of the further properties *)

(** An entry of the mapping whose record is an object with a truthy
    [api_id]. *)
Definition has_api_id (entry : jsstring * json) : bool :=
  match snd entry with
  | JObj l => ToBoolean (assoc (js "api_id") l)
  | _ => false
  end.

(** No dollar sign. *)
Definition dollar_free (s : jsstring) : bool :=
  forallb (fun c => negb (N.eqb c 36)) s.

(** [pat] occurs in [s] at index [i]. *)
Definition occurs_at (pat s : jsstring) (i : nat) : bool :=
  startsWith (skipn i s) pat.

Definition all_trimmable (s : jsstring) : bool := forallb is_trimmable s.

Definition is_probe (rq : request) : Prop :=
  match rq with Head _ => True | GithubGet _ => False end.

Definition is_github (rq : request) : Prop :=
  match rq with GithubGet _ => True | Head _ => False end.

(** A computation that leaves the files alone and makes at most [n]
    requests, all of the kind [kind]. *)
Definition reads_only (kind : request -> Prop) (n : nat) (A : Type)
    (c : M A) : Prop :=
  forall w r w',
    c w = (r, w') ->
    files w' = files w
    /\ exists rs, requests w' = rs ++ requests w
                  /\ Forall kind rs /\ length rs <= n.

(** A computation that prints nothing. *)
Definition silent (A : Type) (c : M A) : Prop :=
  forall w r w', c w = (r, w') -> console w' = console w.

(** A library whose documentation link is an object with a [toString]
    property of its own, which no template literal can print. *)
Definition unprintable_metadata : json :=
  JObj [(js "api_id", JStr (js "x"));
        (js "name_pretty", JStr (js "Cloud Foo"));
        (js "client_documentation", JObj [(js "toString", JNull)])].


Section Provenance.
Context {host : Host}.

(** Between [w] and [w'] the metadata file of [repo] was requested, the
    answer was a success, and its content parses as [metadata]. *)
Definition fetched_as (w w' : World) (repo : jsstring) (metadata : json)
    : Prop :=
  exists earlier later status link content,
    requests w'
    = later ++ GithubGet (contents_url repo) :: earlier ++ requests w
    /\ server (earlier ++ requests w) (GithubGet (contents_url repo))
       = Response status link (FileContents content)
    /\ (N.leb 200 status && N.ltb status 300)%bool = true
    /\ JSON_parse (base64_utf8 content) = Some metadata.

End Provenance.

(** The requests of the collection for [repos], newest first. *)
Definition fetches (repos : list jsstring) : list request :=
  rev (map (fun repo => GithubGet (contents_url repo)) repos).

(** A search that always names a next page. *)
Definition endless_host : Host :=
  sample_host
    [(GithubGet search_url,
      Response 200 (Some second_page) (SearchResults [js "googleapis/a"]));
     (GithubGet second_page,
      Response 200 (Some second_page) (SearchResults [js "googleapis/b"]))]
    [].

(** A host like [h] but for its disk, which is full when the file at
    [path] is written: the write fails and leaves the file empty. *)
Definition disk_full (path : jsstring) (h : Host) : Host := {|
  GITHUB_TOKEN := @GITHUB_TOKEN h;
  server := @server h;
  toLowerCase := @toLowerCase h;
  localeCompare := @localeCompare h;
  base64_utf8 := @base64_utf8 h;
  JSON_parse := @JSON_parse h;
  JSON_stringify := @JSON_stringify h;
  numberToString := @numberToString h;
  parseLinkHeader := @parseLinkHeader h;
  URL_href := @URL_href h;
  figures_tick := @figures_tick h;
  figures_cross := @figures_cross h;
  chalk_green := @chalk_green h;
  chalk_red := @chalk_red h;
  write_failure := fun _ p _ =>
    if jsstring_eqb p path then Some (Some []) else None
|}.

(** A search endpoint that answers 404. *)
Definition missing_search_host : Host :=
  sample_host [(GithubGet search_url, Response 404 None OtherBody)] [].

(** * Theorems *)

(** ** Strings *)

Lemma jsstring_eqb_eq (a b : jsstring) : jsstring_eqb a b = true <-> a = b.
Proof.
  unfold jsstring_eqb. destruct (list_eq_dec N.eq_dec a b); split; congruence.
Qed.

Lemma jsstring_eqb_refl (a : jsstring) : jsstring_eqb a a = true.
Proof. now apply jsstring_eqb_eq. Qed.

Lemma jsstring_eqb_neq (a b : jsstring) : a <> b -> jsstring_eqb a b = false.
Proof.
  intros H. destruct (jsstring_eqb a b) eqn:E; [|reflexivity].
  now apply jsstring_eqb_eq in E.
Qed.

Lemma startsWith_app (p r : jsstring) : startsWith (p ++ r) p = true.
Proof. induction p as [|c p IH]; simpl; [reflexivity|]. now rewrite N.eqb_refl. Qed.

Lemma startsWith_inv (s p : jsstring) :
  startsWith s p = true -> exists r, s = p ++ r.
Proof.
  revert s. induction p as [|c p IH]; intros s H.
  - now exists s.
  - destruct s as [|x s]; simpl in H; [discriminate|].
    apply andb_true_iff in H as [Hx Hs]. apply N.eqb_eq in Hx. subst x.
    destruct (IH _ Hs) as [r ->]. now exists r.
Qed.

(** ** The matcher against the patterns' meaning *)

Section Matcher.

Lemma repeat_star_sound (m : matcher) (P : nat -> jsstring -> jsstring -> Prop) :
  (forall p s k e, m p s k = Some e ->
     exists w rest, s = w ++ rest /\ P p w rest /\ k (p + length w) rest = Some e) ->
  forall n p s k e, repeat_star m n p s k = Some e ->
     exists w rest, s = w ++ rest /\ iter P p w rest
                    /\ k (p + length w) rest = Some e.
Proof.
  intros Hm. induction n as [|n IH]; intros p s k e H; simpl in H.
  - exists [], s. simpl. rewrite Nat.add_0_r. repeat split; [constructor|assumption].
  - destruct (m p s _) as [e'|] eqn:E.
    + injection H as ->.
      apply Hm in E as (w1 & rest1 & -> & HP & Hk).
      destruct (Nat.eqb (p + length w1) p) eqn:Ep; [discriminate|].
      apply IH in Hk as (w2 & rest & -> & Hit & Hk).
      exists (w1 ++ w2), rest. rewrite app_assoc, length_app, Nat.add_assoc.
      repeat split; [|assumption].
      constructor; [|assumption|assumption].
      intros ->. simpl in Ep. rewrite Nat.add_0_r, Nat.eqb_refl in Ep. discriminate.
    + exists [], s. simpl. rewrite Nat.add_0_r. repeat split; [constructor|assumption].
Qed.

Lemma run_sound (r : regex) :
  forall p s k e, run r p s k = Some e ->
    exists w rest, s = w ++ rest /\ matches r p w rest
                   /\ k (p + length w) rest = Some e.
Proof.
  induction r as [|c| | | |r1 IH1 r2 IH2|r IH|r IH|r IH|r IH];
    intros p s k e H; simpl in H.
  - exists [], s. simpl. now rewrite Nat.add_0_r.
  - destruct s as [|x s]; [discriminate|].
    destruct (N.eqb x c) eqn:E; [|discriminate]. apply N.eqb_eq in E. subst x.
    exists [c], s. simpl. now rewrite Nat.add_1_r.
  - destruct s as [|x s]; [discriminate|].
    destruct (is_line_terminator x) eqn:E; [discriminate|].
    exists [x], s. simpl. rewrite Nat.add_1_r. eauto.
  - destruct (Nat.eqb p 0) eqn:E; [|discriminate]. apply Nat.eqb_eq in E.
    exists [], s. simpl. now rewrite Nat.add_0_r.
  - destruct s; [|discriminate]. exists [], []. simpl. now rewrite Nat.add_0_r.
  - apply IH1 in H as (w1 & rest1 & -> & H1 & H).
    apply IH2 in H as (w2 & rest & -> & H2 & H).
    exists (w1 ++ w2), rest. rewrite app_assoc, length_app, Nat.add_assoc.
    repeat split; [|assumption]. now exists w1, w2.
  - apply (@repeat_star_sound _ _ IH) in H. exact H.
  - apply IH in H as (w1 & rest1 & -> & H1 & H).
    apply (@repeat_star_sound _ _ IH) in H as (w2 & rest & -> & H2 & H).
    exists (w1 ++ w2), rest. rewrite app_assoc, length_app, Nat.add_assoc.
    repeat split; [|assumption]. now exists w1, w2.
  - destruct (run r p s _) as [e'|] eqn:E.
    + injection H as ->. apply IH in E as (w & rest & -> & Hw & Hk).
      destruct (Nat.eqb (p + length w) p); [discriminate|].
      exists w, rest. simpl. auto.
    + exists [], s. simpl. rewrite Nat.add_0_r. auto.
  - apply IH in H. exact H.
Qed.

Lemma repeat_star_complete (m : matcher) (P : nat -> jsstring -> jsstring -> Prop) :
  (forall p w rest k, P p w rest -> k (p + length w) rest <> None ->
     m p (w ++ rest) k <> None) ->
  forall p w rest, iter P p w rest ->
  forall n k, length w <= n -> k (p + length w) rest <> None ->
    repeat_star m n p (w ++ rest) k <> None.
Proof.
  intros Hm p w rest Hit.
  induction Hit as [p rest|p w1 w2 rest Hne HP Hit IH]; intros n k Hn Hk.
  - simpl in Hk. rewrite Nat.add_0_r in Hk.
    destruct n as [|n]; simpl; [assumption|].
    destruct (m p rest _); [discriminate|assumption].
  - rewrite length_app in Hn, Hk.
    destruct n as [|n]; [destruct w1; [congruence|simpl in Hn; lia]|].
    simpl. rewrite <- app_assoc.
    destruct (m p (w1 ++ w2 ++ rest) _) as [e|] eqn:E; [discriminate|].
    exfalso. revert E. apply Hm; [assumption|].
    replace (Nat.eqb (p + length w1) p) with false.
    + apply IH; [|now rewrite <- Nat.add_assoc].
      destruct w1; [congruence|simpl in Hn; lia].
    + symmetry. apply Nat.eqb_neq. destruct w1; [congruence|simpl; lia].
Qed.

Lemma run_complete (r : regex) :
  forall p w rest k, matches r p w rest -> k (p + length w) rest <> None ->
    run r p (w ++ rest) k <> None.
Proof.
  induction r as [|c| | | |r1 IH1 r2 IH2|r IH|r IH|r IH|r IH];
    intros p w rest k H Hk; simpl in H; simpl run.
  - subst w. simpl in *. now rewrite Nat.add_0_r in Hk.
  - subst w. simpl in *. rewrite N.eqb_refl. now rewrite Nat.add_1_r in Hk.
  - destruct H as (c & -> & Hc). simpl in *. rewrite Hc.
    now rewrite Nat.add_1_r in Hk.
  - destruct H as [-> ->]. simpl in *. assumption.
  - destruct H as [-> ->]. simpl in *. now rewrite Nat.add_0_r in Hk.
  - destruct H as (w1 & w2 & -> & H1 & H2). rewrite <- app_assoc.
    apply IH1; [assumption|]. apply IH2; [assumption|].
    now rewrite length_app, Nat.add_assoc in Hk.
  - apply (@repeat_star_complete _ _ IH _ _ _ H); [rewrite length_app; lia|assumption].
  - destruct H as (w1 & w2 & -> & H1 & H2). rewrite <- app_assoc.
    apply IH; [assumption|].
    apply (@repeat_star_complete _ _ IH _ _ _ H2); [rewrite length_app; lia|].
    now rewrite length_app, Nat.add_assoc in Hk.
  - destruct H as [->|H].
    + simpl in *. rewrite Nat.add_0_r in Hk.
      destruct (run r p rest _); [discriminate|assumption].
    + destruct (Nat.eqb (p + length w) p) eqn:Ep.
      * apply Nat.eqb_eq in Ep. assert (w = []) as -> by (destruct w; [reflexivity|simpl in Ep; lia]).
        simpl in *. rewrite Nat.add_0_r in Hk.
        destruct (run r p rest _); [discriminate|assumption].
      * destruct (run r p (w ++ rest) _) eqn:E; [discriminate|].
        exfalso. revert E. apply IH; [assumption|]. now rewrite Ep.
  - now apply IH.
Qed.

End Matcher.

Lemma accept_sound (r : regex) (p : nat) (s : jsstring) (e : nat) :
  run r p s accept = Some e ->
  exists w rest, s = w ++ rest /\ matches r p w rest /\ e = p + length w.
Proof.
  intros H. apply run_sound in H as (w & rest & -> & Hm & Hk).
  unfold accept in Hk. injection Hk as <-. eauto.
Qed.

Lemma accept_complete (r : regex) (p : nat) (w rest : jsstring) :
  matches r p w rest -> run r p (w ++ rest) accept <> None.
Proof. intros H. apply run_complete; [assumption|discriminate]. Qed.

Lemma matches_lit (t : jsstring) (p : nat) (w rest : jsstring) :
  matches (lit t) p w rest <-> w = t.
Proof.
  revert p w. induction t as [|c t IH]; intros p w; simpl.
  - tauto.
  - split.
    + intros (w1 & w2 & -> & -> & H). apply IH in H. now subst.
    + intros ->. exists [c], t. repeat split. now apply IH.
Qed.

(** A pattern that ends at the end of the input and matches the texts
    [ok] accepts, wherever they start: the first match starts at the
    leftmost index whose remainder is accepted. *)
Lemma exec_anchored (r : regex) (ok : jsstring -> bool) :
  (forall p w rest, matches r p w rest <-> rest = [] /\ ok w = true) ->
  forall pre tail p,
    ok tail = true ->
    (forall i, i < length pre -> ok (skipn i (pre ++ tail)) = false) ->
    exec_from r p (pre ++ tail)
    = Some (p + length pre, p + length pre + length tail).
Proof.
  intros Hr. induction pre as [|c pre IH]; intros tail p Hok Hmin.
  - simpl app. destruct tail as [|t tail]; simpl exec_from.
    + destruct (run r p [] accept) as [e|] eqn:E.
      * apply accept_sound in E as (w & rest & Hs & _ & ->).
        symmetry in Hs. apply app_eq_nil in Hs as [-> ->]. simpl.
        now rewrite !Nat.add_0_r.
      * exfalso. revert E. change (@nil N) with (@nil N ++ []).
        apply accept_complete, Hr. auto.
    + destruct (run r p (t :: tail) accept) as [e|] eqn:E.
      * apply accept_sound in E as (w & rest & Hs & Hm & ->).
        apply Hr in Hm as [-> _]. rewrite app_nil_r in Hs. subst w.
        simpl length. now rewrite Nat.add_0_r.
      * exfalso. revert E. rewrite <- (app_nil_r (t :: tail)).
        apply accept_complete, Hr. auto.
  - simpl app. simpl exec_from.
    destruct (run r p (c :: pre ++ tail) accept) as [e|] eqn:E.
    + apply accept_sound in E as (w & rest & Hs & Hm & ->).
      apply Hr in Hm as [-> Hw]. rewrite app_nil_r in Hs. subst w.
      specialize (Hmin 0 ltac:(simpl; lia)). simpl in Hmin. congruence.
    + rewrite IH; [simpl length; f_equal; f_equal; lia|assumption|].
      intros i Hi. apply (Hmin (S i)). simpl. lia.
Qed.

Lemma replace_anchored (r : regex) (ok : jsstring -> bool) :
  (forall p w rest, matches r p w rest <-> rest = [] /\ ok w = true) ->
  forall pre tail repl,
    ok tail = true ->
    (forall i, i < length pre -> ok (skipn i (pre ++ tail)) = false) ->
    regex_replace r repl (pre ++ tail) = pre ++ repl.
Proof.
  intros Hr pre tail repl Hok Hmin. unfold regex_replace.
  rewrite (exec_anchored r ok Hr pre tail 0 Hok Hmin). simpl.
  rewrite firstn_app, firstn_all, Nat.sub_diag, firstn_0, app_nil_r.
  rewrite skipn_all2 by (rewrite length_app; lia).
  now rewrite app_nil_r.
Qed.

(** *** The pattern of line 87 *)

Lemma all_slashes_cons (c : N) (w : jsstring) :
  all_slashes (c :: w) = (N.eqb slash c && all_slashes w)%bool.
Proof. reflexivity. Qed.

Lemma iter_slashes (p : nat) (w rest : jsstring) :
  iter (matches (Chr slash)) p w rest <-> all_slashes w = true.
Proof.
  split.
  - induction 1 as [|p w1 w2 rest _ Hw1 _ IH]; [reflexivity|].
    simpl in Hw1. subst w1. exact IH.
  - revert p. induction w as [|c w IH]; intros p H; [constructor|].
    rewrite all_slashes_cons in H. apply andb_true_iff in H as [Hc Hw].
    apply N.eqb_eq in Hc. subst c.
    apply (@iter_step (matches (Chr slash)) p [slash] w rest);
      [discriminate|reflexivity|now apply IH].
Qed.

Lemma trailing_slashes_matches (p : nat) (w rest : jsstring) :
  matches re_trailing_slashes p w rest <-> rest = [] /\ all_slashes w = true.
Proof.
  unfold re_trailing_slashes. simpl. split.
  - intros (w1 & w2 & -> & H1 & -> & ->). rewrite app_nil_r.
    split; [reflexivity|]. now apply iter_slashes in H1.
  - intros [-> H]. exists w, []. rewrite app_nil_r.
    repeat split. now apply iter_slashes.
Qed.

Lemma all_slashes_repeat (n : nat) : all_slashes (repeat slash n) = true.
Proof. induction n; [reflexivity|]. simpl. assumption. Qed.

Lemma all_slashes_app (a b : jsstring) :
  all_slashes (a ++ b) = (all_slashes a && all_slashes b)%bool.
Proof. apply forallb_app. Qed.

Lemma not_all_slashes (base tail : jsstring) (i : nat) :
  last base 0%N <> slash -> i < length base ->
  all_slashes (skipn i (base ++ tail)) = false.
Proof.
  revert i. induction base as [|c base IH]; intros i Hl Hi; [simpl in Hi; lia|].
  destruct i as [|i].
  - simpl skipn. destruct base as [|d base].
    + change (all_slashes (c :: tail) = false). rewrite all_slashes_cons.
      destruct (N.eqb slash c) eqn:E; [|reflexivity].
      apply N.eqb_eq in E. simpl in Hl. congruence.
    + change (all_slashes (c :: skipn 0 ((d :: base) ++ tail)) = false).
      rewrite all_slashes_cons.
      rewrite (IH 0); [apply andb_false_r|exact Hl|simpl; lia].
  - simpl skipn. destruct base as [|d base]; [simpl in Hi; lia|].
    apply IH; [exact Hl|simpl in *; lia].
Qed.

Lemma slash_normalize (base : jsstring) (n : nat) :
  last base 0%N <> slash ->
  regex_replace re_trailing_slashes (js "/") (base ++ repeat slash n)
  = base ++ js "/".
Proof.
  intros Hl. apply (replace_anchored _ all_slashes trailing_slashes_matches).
  - apply all_slashes_repeat.
  - intros i Hi. now apply not_all_slashes.
Qed.

(** *** The pattern of line 90 *)

Lemma no_line_terminator_app (a b : jsstring) :
  no_line_terminator (a ++ b)
  = (no_line_terminator a && no_line_terminator b)%bool.
Proof. apply forallb_app. Qed.

Lemma iter_dots (p : nat) (w rest : jsstring) :
  iter (matches Dot) p w rest <-> no_line_terminator w = true.
Proof.
  split.
  - induction 1 as [|p w1 w2 rest _ Hw1 _ IH]; [reflexivity|].
    destruct Hw1 as (c & -> & Hc). rewrite no_line_terminator_app, IH.
    unfold no_line_terminator. simpl forallb. now rewrite Hc.
  - revert p. induction w as [|c w IH]; intros p H; [constructor|].
    change (c :: w) with ([c] ++ w) in *.
    rewrite no_line_terminator_app in H. apply andb_true_iff in H as [Hc Hw].
    apply (@iter_step (matches Dot) p [c] w rest);
      [discriminate| |now apply IH].
    exists c. split; [reflexivity|].
    unfold no_line_terminator in Hc. simpl in Hc.
    now destruct (is_line_terminator c).
Qed.

Lemma iter_plus_dots (p : nat) (w rest : jsstring) :
  iter (matches (Group (Plus Dot))) p w rest <-> no_line_terminator w = true.
Proof.
  split.
  - induction 1 as [|p w1 w2 rest _ Hw1 _ IH]; [reflexivity|].
    destruct Hw1 as (a & b & -> & (c & -> & Hc) & Hb).
    apply iter_dots in Hb.
    rewrite !no_line_terminator_app, IH, Hb.
    unfold no_line_terminator. simpl forallb. now rewrite Hc.
  - intros H. destruct w as [|c w]; [constructor|].
    rewrite <- (app_nil_r (c :: w)).
    apply (@iter_step (matches (Group (Plus Dot))) p (c :: w) [] rest);
      [discriminate| |constructor].
    change (c :: w) with ([c] ++ w) in H.
    rewrite no_line_terminator_app in H. apply andb_true_iff in H as [Hc Hw].
    exists [c], w. repeat split.
    + exists c. split; [reflexivity|].
      unfold no_line_terminator in Hc. simpl in Hc.
      now destruct (is_line_terminator c).
    + now apply iter_dots.
Qed.

Lemma docs_group_matches (p : nat) (w rest : jsstring) :
  matches docs_group p w rest
  <-> exists b, w = js "docs/" ++ b /\ no_line_terminator b = true.
Proof.
  change (matches docs_group p w rest)
    with (exists w1 w2, w = w1 ++ w2 /\ matches (lit (js "docs/")) p w1 (w2 ++ rest)
            /\ iter (matches (Group (Plus Dot))) (p + length w1) w2 rest).
  split.
  - intros (w1 & w2 & -> & H1 & H2). apply matches_lit in H1. subst w1.
    apply iter_plus_dots in H2. eauto.
  - intros (b & -> & Hb). exists (js "docs/"), b.
    repeat split; [now apply matches_lit|now apply iter_plus_dots].
Qed.

Lemma docs_tail_one_line (w : jsstring) :
  docs_tail w = true -> no_line_terminator w = true.
Proof.
  destruct w as [|c w]; [reflexivity|]. unfold docs_tail.
  intros H. now apply andb_true_iff in H.
Qed.

Lemma iter_docs_groups (p : nat) (w rest : jsstring) :
  iter (matches docs_group) p w rest <-> docs_tail w = true.
Proof.
  split.
  - induction 1 as [|p w1 w2 rest Hne Hw1 _ IH]; [reflexivity|].
    apply docs_group_matches in Hw1 as (b & -> & Hb).
    apply docs_tail_one_line in IH.
    change (docs_tail ((js "docs/" ++ b) ++ w2))
      with (startsWith ((js "docs/" ++ b) ++ w2) (js "docs/")
            && no_line_terminator ((js "docs/" ++ b) ++ w2))%bool.
    rewrite <- app_assoc at 1. rewrite startsWith_app.
    now rewrite !no_line_terminator_app, Hb, IH.
  - intros H. destruct w as [|c w]; [constructor|].
    unfold docs_tail in H. apply andb_true_iff in H as [Hs Hl].
    apply startsWith_inv in Hs as [b Hb]. rewrite Hb in *.
    rewrite no_line_terminator_app in Hl. apply andb_true_iff in Hl as [_ Hl].
    rewrite <- (app_nil_r (js "docs/" ++ b)).
    apply (@iter_step (matches docs_group) p (js "docs/" ++ b) [] rest);
      [discriminate| |constructor].
    apply docs_group_matches. eauto.
Qed.

Lemma docs_tail_matches (p : nat) (w rest : jsstring) :
  matches re_docs_tail p w rest <-> rest = [] /\ docs_tail w = true.
Proof.
  change (matches re_docs_tail p w rest)
    with (exists w1 w2, w = w1 ++ w2
            /\ iter (matches docs_group) p w1 (w2 ++ rest)
            /\ (w2 = [] /\ rest = [])).
  split.
  - intros (w1 & w2 & -> & H1 & -> & ->). rewrite app_nil_r.
    split; [reflexivity|]. now apply iter_docs_groups in H1.
  - intros [-> H]. exists w, []. rewrite app_nil_r.
    repeat split. now apply iter_docs_groups.
Qed.

(** *** The pattern of line 76 *)

Lemma cloud_prefix_matches (p : nat) (w rest : jsstring) :
  matches re_cloud_prefix p w rest ->
  p = 0 /\ (w = js "Google Cloud " \/ w = js "Cloud ").
Proof.
  change (matches re_cloud_prefix p w rest)
    with (exists w1 w2, w = w1 ++ w2 /\ (w1 = [] /\ p = 0)
            /\ exists w3 w4, w2 = w3 ++ w4
                 /\ (w3 = [] \/ matches (lit (js "Google ")) (p + length w1) w3 (w4 ++ rest))
                 /\ matches (lit (js "Cloud ")) (p + length w1 + length w3) w4 rest).
  intros (w1 & w2 & -> & [-> ->] & w3 & w4 & -> & H3 & H4).
  apply matches_lit in H4. subst w4. split; [reflexivity|].
  destruct H3 as [->|H3]; [now right|].
  apply matches_lit in H3. subst w3. now left.
Qed.

Lemma exec_cloud_prefix_later (s : jsstring) (p : nat) :
  0 < p -> exec_from re_cloud_prefix p s = None.
Proof.
  revert p. induction s as [|c s IH]; intros p Hp;
    destruct p as [|p]; try lia; simpl; [reflexivity|].
  apply IH. lia.
Qed.

Lemma exec_from_eq (r : regex) (p : nat) (s : jsstring) :
  exec_from r p s
  = match run r p s accept with
    | Some e => Some (p, e)
    | None => match s with
              | [] => None
              | _ :: s' => exec_from r (S p) s'
              end
    end.
Proof. destruct s; reflexivity. Qed.

Lemma below_check (f : nat -> bool) (n : nat) :
  forallb (fun i => negb (f i)) (seq 0 n) = true ->
  forall i, i < n -> f i = false.
Proof.
  intros H i Hi. rewrite forallb_forall in H.
  apply negb_true_iff, H, in_seq. lia.
Qed.

(** ** Name normalization *)

(** C5.  Line 76 removes one leading [Google Cloud ] or [Cloud ] and
    nothing else: whatever follows the prefix is returned as it is, also
    when it begins with the prefix again; a name that begins with neither
    literal, in this very spelling, is returned unchanged. *)
Theorem normalize_name_spec :
  (forall r, normalize_name (js "Google Cloud " ++ r) = r)
  /\ (forall r, normalize_name (js "Cloud " ++ r) = r)
  /\ (forall s,
        startsWith s (js "Google Cloud ") = false ->
        startsWith s (js "Cloud ") = false ->
        normalize_name s = s)
  /\ normalize_name (js "Google Cloud Storage") = js "Storage"
  /\ normalize_name (js "Cloud Vision") = js "Vision"
  /\ normalize_name (js "BigQuery") = js "BigQuery"
  /\ normalize_name (js "Cloud Cloud Run") = js "Cloud Run"
  /\ normalize_name (js "google cloud Storage") = js "google cloud Storage".
Proof.
  split; [intros r; vm_compute; reflexivity|].
  split; [intros r; vm_compute; reflexivity|].
  split; [|repeat split; vm_compute; reflexivity].
  intros s HG HC. unfold normalize_name, regex_replace.
  assert (exec_from re_cloud_prefix 0 s = None) as ->; [|reflexivity].
  assert (run re_cloud_prefix 0 s accept = None) as E.
  { destruct (run re_cloud_prefix 0 s accept) as [e|] eqn:E; [|reflexivity].
    apply accept_sound in E as (w & rest & -> & Hm & _).
    apply cloud_prefix_matches in Hm as [_ [->| ->]].
    - now rewrite startsWith_app in HG.
    - now rewrite startsWith_app in HC. }
  rewrite exec_from_eq, E. destruct s as [|c s]; [reflexivity|].
  apply exec_cloud_prefix_later. lia.
Qed.

Lemma normalize_name_spec_witness :
  normalize_name (js "BigQuery") = js "BigQuery".
Proof.
  apply (proj1 (proj2 (proj2 normalize_name_spec))); reflexivity.
Defined.

(** ** The candidate support URL *)

(** C6.  Lines 85-90.  First the URL is made to end in exactly one slash:
    whatever run of slashes follows a text that does not end in one, none
    included, becomes one slash.  Then the trailing portion that begins
    with the leftmost [docs/] followed by no line break -- the empty
    portion at the very end when there is none -- is replaced by
    [docs/getting-support]. *)
Theorem supportDocsUrl_spec :
  (forall base n,
     last base 0%N <> slash ->
     regex_replace re_trailing_slashes (js "/") (base ++ repeat slash n)
     = base ++ js "/")
  /\ (forall base n pre tail,
        last base 0%N <> slash ->
        base ++ js "/" = pre ++ tail ->
        docs_tail tail = true ->
        (forall i, i < length pre -> docs_tail (skipn i (pre ++ tail)) = false) ->
        supportDocsUrl (base ++ repeat slash n)
        = pre ++ js "docs/getting-support")
  /\ supportDocsUrl
       (js "https://cloud.google.com/container-registry/docs/container-analysis")
     = js "https://cloud.google.com/container-registry/docs/getting-support".
Proof.
  split; [exact slash_normalize|].
  split; [|vm_compute; reflexivity].
  intros base n pre tail Hl Hs Ht Hmin. unfold supportDocsUrl.
  rewrite (slash_normalize base n Hl), Hs.
  now apply (replace_anchored _ docs_tail docs_tail_matches).
Qed.

Lemma supportDocsUrl_spec_witness :
  supportDocsUrl
    (js "https://cloud.google.com/natural-language/docs//" )
  = js "https://cloud.google.com/natural-language/" ++ js "docs/getting-support".
Proof.
  apply (proj1 (proj2 supportDocsUrl_spec)
           (js "https://cloud.google.com/natural-language/docs") 2
           (js "https://cloud.google.com/natural-language/") (js "docs/")).
  - vm_compute. discriminate.
  - reflexivity.
  - reflexivity.
  - apply (below_check
             (fun i => docs_tail
                (skipn i (js "https://cloud.google.com/natural-language/"
                          ++ js "docs/")))).
    vm_compute. reflexivity.
Defined.

(** ** Sorting *)

Section Sorting.
Variables (A : Type) (cmp : A -> A -> result Z).
Variables (D : A -> Prop) (R : A -> A -> Prop).
Hypothesis cmp_total : forall x y, D x -> D y -> exists c, cmp x y = Ok c.
Hypothesis cmp_le :
  forall x y c, D x -> D y -> cmp x y = Ok c -> (c <= 0)%Z -> R x y.
Hypothesis cmp_gt :
  forall x y c, D x -> D y -> cmp x y = Ok c -> (0 < c)%Z -> R y x.

Lemma insert_sorted_perm (x : A) (l : list A) :
  forall l', insert_sorted cmp x l = Ok l' -> Permutation (x :: l) l'.
Proof.
  induction l as [|y l IH]; intros l' H; simpl in H.
  - injection H as <-. apply Permutation_refl.
  - destruct (cmp x y) as [c|e]; [|discriminate].
    destruct (c <=? 0)%Z.
    + injection H as <-. apply Permutation_refl.
    + destruct (insert_sorted cmp x l) as [l''|e]; [|discriminate].
      injection H as <-. eapply perm_trans; [apply perm_swap|].
      apply perm_skip, IH. reflexivity.
Qed.

Lemma sort_by_perm (l : list A) :
  forall s, sort_by cmp l = Ok s -> Permutation l s.
Proof.
  induction l as [|x l IH]; intros s H; simpl in H.
  - injection H as <-. constructor.
  - destruct (sort_by cmp l) as [s'|e]; [|discriminate].
    apply insert_sorted_perm in H.
    eapply perm_trans; [apply perm_skip, IH; reflexivity|exact H].
Qed.

Lemma insert_sorted_ok (x : A) (l : list A) :
  D x -> Forall D l -> exists l', insert_sorted cmp x l = Ok l'.
Proof.
  intros Hx Hl. induction Hl as [|y l Hy Hl IH]; simpl; [eauto|].
  destruct (cmp_total Hx Hy) as [c ->].
  destruct (c <=? 0)%Z; [eauto|].
  destruct IH as [l' ->]. eauto.
Qed.

Lemma sort_by_ok (l : list A) : Forall D l -> exists s, sort_by cmp l = Ok s.
Proof.
  induction 1 as [|x l Hx Hl [s Hs]]; simpl; [eauto|].
  rewrite Hs. apply insert_sorted_ok; [assumption|].
  eapply Permutation_Forall; [eapply sort_by_perm; exact Hs|assumption].
Qed.





End Sorting.

(** ** Property lists *)

Lemma assoc_set_same (A : Type) (k : jsstring) (v : A) (l : list (jsstring * A)) :
  assoc k (assoc_set k v l) = Some v.
Proof.
  induction l as [|[k' v'] l IH]; simpl.
  - now rewrite jsstring_eqb_refl.
  - destruct (jsstring_eqb k' k) eqn:E; simpl.
    + now rewrite jsstring_eqb_refl.
    + now rewrite E.
Qed.

Lemma assoc_set_other (A : Type) (k k' : jsstring) (v : A)
    (l : list (jsstring * A)) :
  k <> k' -> assoc k' (assoc_set k v l) = assoc k' l.
Proof.
  intros Hk. induction l as [|[k0 v0] l IH]; simpl.
  - now rewrite jsstring_eqb_neq.
  - destruct (jsstring_eqb k0 k) eqn:E; simpl.
    + apply jsstring_eqb_eq in E. subst k0. now rewrite jsstring_eqb_neq.
    + now rewrite IH.
Qed.

Ltac keys_differ := let H := fresh in intro H; vm_compute in H; discriminate H.

(** ** Records *)

Section Records.
Context {host : Host}.

Lemma process_record_probed (l : list (jsstring * json)) (a : json)
    (np pd : jsstring) (w : World) (status : N) (link : option jsstring)
    (data : body) :
  assoc (js "api_id") l = Some a -> ToBoolean (Some a) = true ->
  assoc (js "name_pretty") l = Some (JStr np) ->
  assoc (js "product_documentation") l = Some (JStr pd) -> pd <> [] ->
  server (requests w) (Head (candidate (normalize_name np) pd))
  = Response status link data ->
  process_record (JObj l) w
  = (Ok (Some (JObj (assoc_set (js "support_documentation")
                       (JStr (if N.eqb status 404 then pd
                              else candidate (normalize_name np) pd))
                       (assoc_set (js "name_pretty")
                          (JStr (normalize_name np)) l)))),
     mkWorld (Head (candidate (normalize_name np) pd) :: requests w)
       (files w) (console w)).
Proof.
  intros Ha Hta Hn Hp Hpd Hs.
  unfold process_record, bind, lift, get_field, set_field.
  rewrite Ha, Hta, Hn. cbn [negb].
  rewrite (assoc_set_other (k := js "name_pretty")
             (k' := js "product_documentation")) by keys_differ.
  rewrite Hp.
  replace (ToBoolean (Some (JStr pd))) with true
    by (destruct pd; [congruence|reflexivity]).
  unfold head_request, bind, exchange. cbn [requests files console].
  rewrite Hs. unfold ret. destruct (N.eqb status 404); reflexivity.
Qed.

Lemma process_record_unprobed (l : list (jsstring * json)) (a : json)
    (np : jsstring) (w : World) :
  assoc (js "api_id") l = Some a -> ToBoolean (Some a) = true ->
  assoc (js "name_pretty") l = Some (JStr np) ->
  ToBoolean (assoc (js "product_documentation") l) = false ->
  process_record (JObj l) w
  = (Ok (Some (JObj (assoc_set (js "name_pretty")
                       (JStr (normalize_name np)) l))), w).
Proof.
  intros Ha Hta Hn Hp.
  unfold process_record, bind, lift, get_field, set_field.
  rewrite Ha, Hta, Hn. cbn [negb].
  rewrite (assoc_set_other (k := js "name_pretty")
             (k' := js "product_documentation")) by keys_differ.
  now rewrite Hp.
Qed.

Lemma process_record_skipped (l : list (jsstring * json)) (w : World) :
  ToBoolean (assoc (js "api_id") l) = false ->
  process_record (JObj l) w = (Ok None, w).
Proof.
  intros Ha. unfold process_record, bind, lift, get_field.
  now rewrite Ha.
Qed.

(** What a record that is pushed went through. *)
Lemma process_record_pushed (metadata lib : json) (w w' : World) :
  process_record metadata w = (Ok (Some lib), w') ->
  exists l np,
    metadata = JObj l
    /\ ToBoolean (assoc (js "api_id") l) = true
    /\ assoc (js "name_pretty") l = Some (JStr np)
    /\ ((ToBoolean (assoc (js "product_documentation") l) = false
         /\ lib = JObj (assoc_set (js "name_pretty")
                          (JStr (normalize_name np)) l)
         /\ w' = w)
        \/ (exists pd status,
              assoc (js "product_documentation") l = Some (JStr pd)
              /\ pd <> []
              /\ lib = JObj (assoc_set (js "support_documentation")
                               (JStr (if N.eqb status 404 then pd
                                      else candidate (normalize_name np) pd))
                               (assoc_set (js "name_pretty")
                                  (JStr (normalize_name np)) l))
              /\ w' = mkWorld
                        (Head (candidate (normalize_name np) pd) :: requests w)
                        (files w) (console w))).
Proof.
  intros H. destruct metadata as [|b|x|s|l|l];
    try (unfold process_record, bind, lift, get_field in H; simpl in H;
         unfold ret in H; congruence).
  destruct (ToBoolean (assoc (js "api_id") l)) eqn:Ha;
    [|rewrite process_record_skipped in H by assumption; congruence].
  destruct (assoc (js "api_id") l) as [a|] eqn:Ea; [|discriminate].
  destruct (assoc (js "name_pretty") l) as [[| | |np| |]|] eqn:En;
    try (unfold process_record, bind, lift, get_field, throw in H;
         rewrite Ea, Ha, En in H; simpl in H; congruence).
  exists l, np. split; [reflexivity|]. split; [now rewrite Ea|].
  split; [assumption|].
  destruct (ToBoolean (assoc (js "product_documentation") l)) eqn:Hp.
  - right.
    destruct (assoc (js "product_documentation") l) as [[| | |pd| |]|] eqn:Ep;
      try discriminate;
      try (unfold process_record, bind, lift, get_field, set_field, throw in H;
           rewrite Ea, Ha, En in H; cbn [negb] in H;
           rewrite (assoc_set_other (k := js "name_pretty")
                      (k' := js "product_documentation")) in H by keys_differ;
           rewrite Ep, Hp in H; congruence).
    assert (pd <> []) as Hne by (intros ->; discriminate).
    destruct (server (requests w) (Head (candidate (normalize_name np) pd)))
      as [status link data|] eqn:Es.
    + rewrite (process_record_probed _ _ Ea Ha En Ep Hne Es) in H.
      injection H as <- <-. exists pd, status. auto.
    + unfold process_record, bind, lift, get_field, set_field in H.
      rewrite Ea, Ha, En in H. cbn [negb] in H.
      rewrite (assoc_set_other (k := js "name_pretty")
                 (k' := js "product_documentation")) in H by keys_differ.
      rewrite Ep, Hp in H.
      unfold head_request, bind, exchange, throw in H.
      cbn [requests files console] in H. rewrite Es in H. congruence.
  - left. rewrite (process_record_unprobed _ _ Ea Ha En Hp) in H.
    injection H as <- <-. auto.
Qed.

Lemma collect_libraries_app (e1 e2 : list (jsstring * json)) :
  forall acc w,
    collect_libraries (e1 ++ e2) acc w
    = match collect_libraries e1 acc w with
      | (Ok libs, w1) => collect_libraries e2 libs w1
      | (Err e, w1) => (Err e, w1)
      end.
Proof.
  induction e1 as [|[k md] e1 IH]; intros acc w; simpl; [reflexivity|].
  unfold bind. destruct (process_record md w) as [[[lib|]|e] w1];
    [apply IH|apply IH|reflexivity].
Qed.

(** Every library collected was pushed for an entry of the mapping. *)
Lemma collect_libraries_origin (entries : list (jsstring * json)) :
  forall acc w libs w',
    collect_libraries entries acc w = (Ok libs, w') ->
    exists news,
      libs = acc ++ news
      /\ Forall (fun lib => exists k md w1 w2,
                   In (k, md) entries
                   /\ process_record md w1 = (Ok (Some lib), w2)) news.
Proof.
  induction entries as [|[k md] entries IH]; intros acc w libs w' H;
    simpl in H.
  - unfold ret in H. injection H as <- <-. exists []. now rewrite app_nil_r.
  - unfold bind in H. destruct (process_record md w) as [[[lib|]|e] w1] eqn:E;
      [| |discriminate].
    + apply IH in H as (news & -> & Hn). exists (lib :: news).
      rewrite <- app_assoc. split; [reflexivity|]. constructor.
      * exists k, md, w, w1. split; [now left|assumption].
      * eapply Forall_impl; [|exact Hn].
        intros x (k' & md' & wa & wb & Hin & Hx).
        exists k', md', wa, wb. split; [now right|assumption].
    + apply IH in H as (news & -> & Hn). exists news.
      split; [reflexivity|].
      eapply Forall_impl; [|exact Hn].
      intros x (k' & md' & wa & wb & Hin & Hx).
      exists k', md', wa, wb. split; [now right|assumption].
Qed.

Lemma render_rows_spec (libraries : list json) :
  forall acc partial,
    render_rows libraries acc = Ok partial ->
    exists rows,
      Forall2 (fun lib row => render_row lib = Ok row) libraries rows
      /\ partial = acc ++ concat rows.
Proof.
  induction libraries as [|lib libraries IH]; intros acc partial H; simpl in H.
  - injection H as <-. exists []. split; [constructor|now rewrite app_nil_r].
  - unfold rbind in H. destruct (render_row lib) as [row|e] eqn:E;
      [|discriminate].
    apply IH in H as (rows & Hr & ->). exists (row :: rows).
    split; [now constructor|]. simpl. now rewrite app_assoc.
Qed.

Lemma writeFileSync_done (path text : jsstring) (w w' : World) :
  writeFileSync path text w = (Ok tt, w') ->
  w' = mkWorld (requests w) (assoc_set path text (files w)) (console w).
Proof.
  unfold writeFileSync.
  destruct (write_failure (files w) path text) as [[remains|]|]; intros H;
    try discriminate. now injection H as <-.
Qed.

Lemma writeFileSync_frame (path text : jsstring) (w w' : World)
    (r : result unit) :
  writeFileSync path text w = (r, w') ->
  requests w' = requests w /\ console w' = console w
  /\ forall other, other <> path ->
       assoc other (files w') = assoc other (files w).
Proof.
  unfold writeFileSync.
  destruct (write_failure (files w) path text) as [[remains|]|]; intros H;
    injection H as <- <-; cbn [requests files console];
    repeat split; intros other Ho; try reflexivity;
    now apply assoc_set_other.
Qed.

Lemma writeFileSync_thrown (path text : jsstring) (w w' : World) (e : exn) :
  writeFileSync path text w = (Err e, w') -> e = FsError.
Proof.
  unfold writeFileSync.
  destruct (write_failure (files w) path text) as [[remains|]|]; intros H;
    try discriminate; now injection H as <- <-.
Qed.

(** What a successful run of the generation did. *)
Lemma generateReadme_written (repoMetadata : list (jsstring * json))
    (w w' : World) :
  generateReadme repoMetadata w = (Ok tt, w') ->
  exists libs w1 sorted,
    collect_libraries repoMetadata [] w = (Ok libs, w1)
    /\ sort_by compare_libraries libs = Ok sorted
    /\ written w w' sorted.
Proof.
  unfold generateReadme, bind, readFileSync, lift. intros H.
  destruct (assoc (js "./bin/README.mustache") (files w)) as [template|] eqn:Et;
    [|discriminate].
  destruct (collect_libraries repoMetadata [] w) as [[libs|e] w1] eqn:Ec;
    [|discriminate].
  destruct (sort_by compare_libraries libs) as [sorted|e] eqn:Es;
    [|discriminate].
  destruct (writeFileSync (js "./libraries.json") _ w1) as [[[]|e] w2] eqn:Ej;
    [|discriminate].
  apply writeFileSync_done in Ej. subst w2.
  destruct (render_rows sorted []) as [partial|e] eqn:Er; [|discriminate].
  apply writeFileSync_done in H. subst w'.
  exists libs, w1, sorted.
  split; [reflexivity|]. split; [assumption|].
  apply render_rows_spec in Er as (rows & Hr & ->).
  exists template, rows. split; [assumption|]. split; [assumption|].
  cbn [files]. split.
  - rewrite assoc_set_other by keys_differ. apply assoc_set_same.
  - apply assoc_set_same.
Qed.

(** A record pushed in a run that completes is an element of the array
    behind both files. *)
Lemma pushed_is_written (pre post : list (jsstring * json)) (k : jsstring)
    (metadata lib : json) (libs1 : list json) (w0 w w1 w' : World) :
  collect_libraries pre [] w0 = (Ok libs1, w) ->
  process_record metadata w = (Ok (Some lib), w1) ->
  generateReadme (pre ++ (k, metadata) :: post) w0 = (Ok tt, w') ->
  exists sorted, written w0 w' sorted /\ In lib sorted.
Proof.
  intros Hpre Hp H. apply generateReadme_written in H
    as (libs & w2 & sorted & Hc & Hs & Hw).
  exists sorted. split; [assumption|].
  eapply Permutation_in; [eapply sort_by_perm; exact Hs|].
  rewrite collect_libraries_app, Hpre in Hc.
  simpl in Hc. unfold bind in Hc. rewrite Hp in Hc.
  apply collect_libraries_origin in Hc as (news & -> & _).
  apply in_or_app. left. apply in_or_app. right. now left.
Qed.

End Records.


(** ** The claims about single records *)

Section RecordClaims.
Context {host : Host}.

(** C3.  A record with a product identifier, a string name that is not a
    Stackdriver name and a product documentation URL, when the remote side
    answers the probe of the derived candidate with any status at all: the
    probe is the one request made, the record is pushed and nothing is
    thrown, and [support_documentation] is the product documentation URL
    as it was when the status is 404 and the candidate for every other
    status. *)
Theorem probe_fallback (l : list (jsstring * json)) (a : json)
    (np pd : jsstring) (w : World) (status : N) (link : option jsstring)
    (data : body) :
  assoc (js "api_id") l = Some a -> ToBoolean (Some a) = true ->
  assoc (js "name_pretty") l = Some (JStr np) ->
  assoc (js "product_documentation") l = Some (JStr pd) -> pd <> [] ->
  is_stackdriver (normalize_name np) = false ->
  server (requests w) (Head (supportDocsUrl pd)) = Response status link data ->
  exists lib,
    process_record (JObj l) w
    = (Ok (Some lib),
       mkWorld (Head (supportDocsUrl pd) :: requests w) (files w) (console w))
    /\ get_field lib (js "support_documentation")
       = Ok (Some (JStr (if N.eqb status 404 then pd else supportDocsUrl pd)))
    /\ (forall pre k post libs w0 w',
          collect_libraries pre [] w0 = (Ok libs, w) ->
          generateReadme (pre ++ (k, JObj l) :: post) w0 = (Ok tt, w') ->
          exists sorted, written w0 w' sorted /\ In lib sorted).
Proof.
  intros Ha Hta Hn Hp Hpd Hst Hs.
  assert (candidate (normalize_name np) pd = supportDocsUrl pd) as Hc
    by (unfold candidate; now rewrite Hst).
  rewrite <- Hc in Hs.
  pose proof (process_record_probed _ _ Ha Hta Hn Hp Hpd Hs) as Hr.
  rewrite Hc in Hr. eexists. split; [exact Hr|]. split.
  - unfold get_field. now rewrite assoc_set_same.
  - intros pre k post libs w0 w' Hpre Hg.
    eapply pushed_is_written; eassumption.
Qed.

(** C1, as the code has it.  A record with a product identifier, a
    Stackdriver name and a product documentation URL: the URL probed is the
    fixed Stackdriver support URL whatever the derived candidate would be,
    and [support_documentation] is that fixed URL for every status of the
    probe but 404, for which it is the product documentation URL. *)
Theorem stackdriver_probe (l : list (jsstring * json)) (a : json)
    (np pd : jsstring) (w : World) (status : N) (link : option jsstring)
    (data : body) :
  assoc (js "api_id") l = Some a -> ToBoolean (Some a) = true ->
  assoc (js "name_pretty") l = Some (JStr np) ->
  assoc (js "product_documentation") l = Some (JStr pd) -> pd <> [] ->
  is_stackdriver (normalize_name np) = true ->
  server (requests w) (Head stackdriver_support) = Response status link data ->
  exists lib,
    process_record (JObj l) w
    = (Ok (Some lib),
       mkWorld (Head stackdriver_support :: requests w) (files w) (console w))
    /\ get_field lib (js "support_documentation")
       = Ok (Some (JStr (if N.eqb status 404 then pd
                         else stackdriver_support)))
    /\ (forall pre k post libs w0 w',
          collect_libraries pre [] w0 = (Ok libs, w) ->
          generateReadme (pre ++ (k, JObj l) :: post) w0 = (Ok tt, w') ->
          exists sorted, written w0 w' sorted /\ In lib sorted).
Proof.
  intros Ha Hta Hn Hp Hpd Hst Hs.
  assert (candidate (normalize_name np) pd = stackdriver_support) as Hc
    by (unfold candidate; now rewrite Hst).
  rewrite <- Hc in Hs.
  pose proof (process_record_probed _ _ Ha Hta Hn Hp Hpd Hs) as Hr.
  rewrite Hc in Hr. eexists. split; [exact Hr|]. split.
  - unfold get_field. now rewrite assoc_set_same.
  - intros pre k post libs w0 w' Hpre Hg.
    eapply pushed_is_written; eassumption.
Qed.

End RecordClaims.

Lemma probe_fallback_witness :
  exists lib,
    process_record (host := scenario_host) vision_metadata world0
    = (Ok (Some lib),
       mkWorld [Head (supportDocsUrl (js "https://cloud.google.com/vision/docs/"))]
         (files world0) [])
    /\ get_field lib (js "support_documentation")
       = Ok (Some (JStr (supportDocsUrl (js "https://cloud.google.com/vision/docs/"))))
    /\ (forall pre k post libs w0 w',
          collect_libraries (host := scenario_host) pre [] w0
          = (Ok libs, world0) ->
          generateReadme (host := scenario_host)
            (pre ++ (k, vision_metadata) :: post) w0 = (Ok tt, w') ->
          exists sorted,
            written (host := scenario_host) w0 w' sorted /\ In lib sorted).
Proof.
  apply (probe_fallback (host := scenario_host) _ (a := JStr (js "x"))
           (np := js "Google Cloud Vision")
           (pd := js "https://cloud.google.com/vision/docs/")
           world0 (status := 200) (link := None) (data := OtherBody));
    try reflexivity.
  discriminate.
Defined.

(** C1 as stated fails: for a Stackdriver product whose support page
    answers 404, the JSON file carries the product documentation URL, not
    the fixed URL. *)
Lemma stackdriver_not_found_counterexample :
  is_stackdriver (host := not_found_host)
    (normalize_name (js "Stackdriver Logging")) = true
  /\ js "https://cloud.google.com/logging/docs" <> stackdriver_support
  /\ exists w',
       generateReadme (host := not_found_host)
         [(js "googleapis/nodejs-logging", logging_metadata)] world0
       = (Ok tt, w')
       /\ assoc (js "./libraries.json") (files w')
          = Some (compact_json (JArr [JObj
              [(js "api_id", JStr (js "logging.googleapis.com"));
               (js "name_pretty", JStr (js "Stackdriver Logging"));
               (js "product_documentation",
                JStr (js "https://cloud.google.com/logging/docs"));
               (js "support_documentation",
                JStr (js "https://cloud.google.com/logging/docs"))]])).
Proof.
  split; [vm_compute; reflexivity|].
  split; [vm_compute; discriminate|].
  eexists. split; vm_compute; reflexivity.
Qed.

Lemma stackdriver_probe_witness :
  exists lib,
    process_record (host := not_found_host) logging_metadata world0
    = (Ok (Some lib),
       mkWorld [Head stackdriver_support] (files world0) [])
    /\ get_field lib (js "support_documentation")
       = Ok (Some (JStr (js "https://cloud.google.com/logging/docs")))
    /\ (forall pre k post libs w0 w',
          collect_libraries (host := not_found_host) pre [] w0
          = (Ok libs, world0) ->
          generateReadme (host := not_found_host)
            (pre ++ (k, logging_metadata) :: post) w0 = (Ok tt, w') ->
          exists sorted,
            written (host := not_found_host) w0 w' sorted /\ In lib sorted).
Proof.
  apply (stackdriver_probe (host := not_found_host) _
           (a := JStr (js "logging.googleapis.com"))
           (np := js "Stackdriver Logging")
           (pd := js "https://cloud.google.com/logging/docs")
           world0 (status := 404) (link := None) (data := OtherBody));
    try reflexivity.
  discriminate.
Defined.

(** ** The claims about the generated files *)

Lemma untouched_assoc_set (k : jsstring) (v : json) (l : list (jsstring * json)) :
  untouched (k, v) = false ->
  filter untouched (assoc_set k v l) = filter untouched l.
Proof.
  intros Hk. induction l as [|[k' v'] l IH]; simpl.
  - now rewrite Hk.
  - destruct (jsstring_eqb k' k) eqn:E.
    + apply jsstring_eqb_eq in E. subst k'. simpl.
      unfold untouched in *. simpl in *. now rewrite Hk.
    + simpl. now rewrite IH.
Qed.

Section GenerationClaims.
Context {host : Host}.

Lemma pushed_frame (metadata lib : json) (w w' : World) :
  process_record metadata w = (Ok (Some lib), w') ->
  only_derived_fields_changed metadata lib.
Proof.
  intros H. apply process_record_pushed in H
    as (l & np & -> & Ha & Hn & [(Hp & -> & _)|(pd & st & Hp & Hne & -> & _)]).
  - exists l, (assoc_set (js "name_pretty") (JStr (normalize_name np)) l), np.
    split; [reflexivity|]. split; [reflexivity|].
    split; [now apply untouched_assoc_set|].
    split; [intros k Hk _; now apply assoc_set_other|].
    split; [assumption|]. split; [apply assoc_set_same|].
    split; [intros _; apply assoc_set_other; keys_differ|].
    intros Hp'. congruence.
  - eexists l, _, np. split; [reflexivity|]. split; [reflexivity|].
    split; [now rewrite !untouched_assoc_set|].
    split; [intros k Hk Hk'; now rewrite !assoc_set_other by congruence|].
    split; [assumption|].
    split; [rewrite assoc_set_other by keys_differ; apply assoc_set_same|].
    split; [intros Hp'; rewrite Hp in Hp'; destruct pd; [congruence|discriminate]|].
    intros _. eexists. apply assoc_set_same.
Qed.

Lemma pushed_named (metadata lib : json) (w w' : World) :
  process_record metadata w = (Ok (Some lib), w') -> named lib.
Proof.
  intros H. apply pushed_frame in H
    as (l & l' & np & -> & -> & _ & _ & _ & Hn & _).
  exists (normalize_name np). simpl. now rewrite Hn.
Qed.

Lemma pushed_identified (metadata lib : json) (w w' : World) :
  process_record metadata w = (Ok (Some lib), w') ->
  exists a, get_field lib (js "api_id") = Ok (Some a)
            /\ ToBoolean (Some a) = true.
Proof.
  intros H. pose proof (process_record_pushed _ _ H) as (l0 & _ & E0 & Ha & _).
  apply pushed_frame in H as (l & l' & np & -> & -> & _ & Hk & _).
  injection E0 as <-.
  destruct (assoc (js "api_id") l) as [a|] eqn:Ea; [|discriminate].
  exists a. split; [|assumption]. simpl.
  rewrite Hk by keys_differ. now rewrite Ea.
Qed.

(** The array written is a rearrangement of the libraries collected, each
    of them pushed for an entry of the mapping. *)
Lemma generateReadme_origin (repoMetadata : list (jsstring * json))
    (w w' : World) :
  generateReadme repoMetadata w = (Ok tt, w') ->
  exists sorted,
    written w w' sorted
    /\ Forall (fun lib => exists k md w1 w2,
                 In (k, md) repoMetadata
                 /\ process_record md w1 = (Ok (Some lib), w2)) sorted.
Proof.
  intros H. apply generateReadme_written in H
    as (libs & w1 & sorted & Hc & Hs & Hw).
  exists sorted. split; [assumption|].
  apply collect_libraries_origin in Hc as (news & -> & Hn).
  eapply Permutation_Forall; [eapply sort_by_perm; exact Hs|exact Hn].
Qed.

(** C9.  A record that is pushed differs from the parsed metadata in
    [name_pretty], which is normalized, and in [support_documentation],
    which is assigned when there is a product documentation URL and only
    then; all its other properties are the parsed ones, in their order.
    The array serialized to the JSON file consists of such records, one
    for an entry of the mapping each. *)
Theorem generation_frame :
  (forall metadata lib w w',
     process_record metadata w = (Ok (Some lib), w') ->
     only_derived_fields_changed metadata lib)
  /\ (forall repoMetadata w w',
        generateReadme repoMetadata w = (Ok tt, w') ->
        exists sorted,
          written w w' sorted
          /\ Forall (fun lib => exists k metadata,
                       In (k, metadata) repoMetadata
                       /\ only_derived_fields_changed metadata lib) sorted).
Proof.
  split; [exact pushed_frame|].
  intros rm w w' H. apply generateReadme_origin in H as (sorted & Hw & Ho).
  exists sorted. split; [assumption|].
  eapply Forall_impl; [|exact Ho].
  intros lib (k & md & w1 & w2 & Hin & Hp).
  exists k, md. split; [assumption|]. now apply pushed_frame in Hp.
Qed.

End GenerationClaims.

Section InclusionClaims.
Context {host : Host}.

Lemma collect_libraries_skip (pre post : list (jsstring * json))
    (k : jsstring) (l : list (jsstring * json)) (acc : list json) (w : World) :
  ToBoolean (assoc (js "api_id") l) = false ->
  collect_libraries (pre ++ (k, JObj l) :: post) acc w
  = collect_libraries (pre ++ post) acc w.
Proof.
  intros Ha. rewrite !collect_libraries_app.
  destruct (collect_libraries pre acc w) as [[libs|e] w1]; [|reflexivity].
  simpl. unfold bind. now rewrite process_record_skipped.
Qed.

(** C7.  A record whose [api_id] is absent (or falsy) is passed over with
    no effect at all;
    the run of the generation is, in its result and in everything it
    writes and requests, the run on the mapping without that record; and
    every element of the array behind the JSON file and the README rows
    has a product identifier. *)
Theorem no_api_id_excluded :
  (forall l w,
     ToBoolean (assoc (js "api_id") l) = false ->
     process_record (JObj l) w = (Ok None, w))
  /\ (forall pre k l post w,
        ToBoolean (assoc (js "api_id") l) = false ->
        generateReadme (pre ++ (k, JObj l) :: post) w
        = generateReadme (pre ++ post) w)
  /\ (forall repoMetadata w w',
        generateReadme repoMetadata w = (Ok tt, w') ->
        exists sorted,
          written w w' sorted
          /\ Forall (fun lib => exists a,
                       get_field lib (js "api_id") = Ok (Some a)
                       /\ ToBoolean (Some a) = true) sorted).
Proof.
  split; [|split].
  - intros l w Ha. now apply process_record_skipped.
  - intros pre k l post w Ha. unfold generateReadme, bind.
    destruct (readFileSync (js "./bin/README.mustache") w) as [[t|e] w0];
      [|reflexivity].
    now rewrite collect_libraries_skip.
  - intros rm w w' H. apply generateReadme_origin in H as (sorted & Hw & Ho).
    exists sorted. split; [assumption|].
    eapply Forall_impl; [|exact Ho].
    intros lib (k & md & w1 & w2 & _ & Hp). now apply pushed_identified in Hp.
Qed.

(** C10, as the code has it.  A record with a product identifier and a
    string name whose [product_documentation] is absent or falsy is pushed
    with its name normalized and the world as it was, so without a
    request; its [support_documentation] is what the metadata file had,
    nothing if it had none; and when the generation completes the record
    is an element of the array behind both files. *)
Theorem no_product_documentation (l : list (jsstring * json)) (a : json)
    (np : jsstring) :
  assoc (js "api_id") l = Some a -> ToBoolean (Some a) = true ->
  assoc (js "name_pretty") l = Some (JStr np) ->
  ToBoolean (assoc (js "product_documentation") l) = false ->
  let lib := JObj (assoc_set (js "name_pretty") (JStr (normalize_name np)) l) in
  (forall w, process_record (JObj l) w = (Ok (Some lib), w))
  /\ get_field lib (js "support_documentation")
     = Ok (assoc (js "support_documentation") l)
  /\ (forall pre k post w w',
        generateReadme (pre ++ (k, JObj l) :: post) w = (Ok tt, w') ->
        exists sorted, written w w' sorted /\ In lib sorted).
Proof.
  intros Ha Hta Hn Hp lib. split; [|split].
  - intros w. now apply (process_record_unprobed _ _ Ha Hta Hn Hp).
  - simpl. now rewrite assoc_set_other by keys_differ.
  - intros pre k post w w' H.
    destruct (collect_libraries pre [] w) as [[libs1|e] wa] eqn:Hpre.
    + eapply pushed_is_written; [exact Hpre| |exact H].
      now apply (process_record_unprobed _ _ Ha Hta Hn Hp).
    + apply generateReadme_written in H as (libs & w1 & sorted & Hc & _).
      rewrite collect_libraries_app, Hpre in Hc. discriminate.
Qed.


End InclusionClaims.

(** ** The sample comparison is consistent *)







(** ** The claims on the samples *)

Lemma generation_frame_witness :
  exists sorted,
    written (host := catalog_host) world0
      (snd (generateReadme (host := catalog_host) catalog world0)) sorted
    /\ Forall (fun lib => exists k metadata,
                 In (k, metadata) catalog
                 /\ only_derived_fields_changed metadata lib) sorted.
Proof.
  apply (proj2 (generation_frame (host := catalog_host)) catalog world0).
  vm_compute. reflexivity.
Defined.

Lemma no_api_id_excluded_witness :
  generateReadme (host := catalog_host) catalog world0
  = generateReadme (host := catalog_host)
      [(js "googleapis/nodejs-vision", vision_metadata);
       (js "googleapis/nodejs-datastore", datastore_metadata)] world0.
Proof.
  apply (proj1 (proj2 (no_api_id_excluded (host := catalog_host)))
           [(js "googleapis/nodejs-vision", vision_metadata)]
           (js "googleapis/nothing") _
           [(js "googleapis/nodejs-datastore", datastore_metadata)] world0).
  reflexivity.
Defined.


(** C10 as stated fails: a record without product documentation whose
    metadata file has a [support_documentation] property keeps it, in the
    record pushed and in the JSON file, and no request is made. *)
Lemma legacy_support_counterexample :
  get_field legacy_metadata (js "product_documentation") = Ok None
  /\ exists w',
       generateReadme (host := offline_host)
         [(js "googleapis/legacy", legacy_metadata)] world0 = (Ok tt, w')
       /\ requests w' = []
       /\ assoc (js "./libraries.json") (files w')
          = Some (compact_json (JArr [JObj
              [(js "api_id", JStr (js "x"));
               (js "name_pretty", JStr (js "Foo"));
               (js "support_documentation",
                JStr (js "https://example.com/help"))]])).
Proof.
  split; [reflexivity|].
  eexists. split; [vm_compute; reflexivity|].
  split; vm_compute; reflexivity.
Qed.

Lemma no_product_documentation_witness :
  let lib := JObj [(js "api_id", JStr (js "x"));
                   (js "name_pretty", JStr (js "Foo"));
                   (js "support_documentation",
                    JStr (js "https://example.com/help"))] in
  (forall w, process_record (host := offline_host) legacy_metadata w
             = (Ok (Some lib), w))
  /\ get_field lib (js "support_documentation")
     = Ok (Some (JStr (js "https://example.com/help")))
  /\ (forall pre k post w w',
        generateReadme (host := offline_host)
          (pre ++ (k, legacy_metadata) :: post) w = (Ok tt, w') ->
        exists sorted, written (host := offline_host) w w' sorted
                       /\ In lib sorted).
Proof.
  apply (no_product_documentation (host := offline_host) legacy_fields
           (a := JStr (js "x")) (np := js "Cloud Foo")); reflexivity.
Defined.

(** ** Metadata collection *)

Section CollectionClaims.
Context {host : Host}.

Lemma collect_one_not_found (repoMetadata : list (jsstring * json))
    (repo : jsstring) (w : World) (link : option jsstring) (data : body) :
  server (requests w) (GithubGet (contents_url repo)) = Response 404 link data ->
  collect_one repoMetadata repo w
  = (Ok repoMetadata,
     mkWorld (GithubGet (contents_url repo) :: requests w) (files w)
       (Info (chalk_red figures_cross ++ js " " ++ repo
              ++ js " had no .repo-metadata.json") :: console w)).
Proof.
  intros Hs. unfold collect_one, try_catch, bind, github_request, bind, exchange.
  fold (contents_url repo). rewrite Hs. reflexivity.
Qed.

Lemma collect_one_fails (repoMetadata : list (jsstring * json))
    (repo : jsstring) (w : World) (e : exn) :
  fetch_fails (server (requests w) (GithubGet (contents_url repo))) e ->
  collect_one repoMetadata repo w
  = (Err e,
     mkWorld (GithubGet (contents_url repo) :: requests w) (files w)
       (console w)).
Proof.
  intros Hf. unfold collect_one, try_catch, bind, github_request, bind, exchange.
  fold (contents_url repo).
  inversion Hf as [status link data Hr Hn Es|Es|status link content Hr Hp Es
                  |status link data Hr Hd Es]; subst e.
  - rewrite Hr. unfold throw. apply N.eqb_neq in Hn. now rewrite Hn.
  - reflexivity.
  - rewrite Hr. unfold ret. cbn [snd]. rewrite Hp. reflexivity.
  - rewrite Hr. unfold ret. cbn [snd].
    destruct data as [names|content|]; try reflexivity.
    now destruct (Hd content).
Qed.

Lemma collect_one_files (repoMetadata : list (jsstring * json))
    (repo : jsstring) (w w' : World) (r : result (list (jsstring * json))) :
  collect_one repoMetadata repo w = (r, w') -> files w' = files w.
Proof.
  unfold collect_one, try_catch, bind, github_request, bind, exchange,
    checkpoint, console_info, ret, throw.
  cbn [requests files console].
  destruct (server (requests w) _) as [status link data|];
    [|intros H; now injection H as <- <-].
  destruct (N.leb 200 status && N.ltb status 300)%bool; cbn [snd].
  - destruct data as [names|content|];
      try (intros H; now injection H as <- <-).
    destruct (JSON_parse (base64_utf8 content));
      intros H; now injection H as <- <-.
  - destruct (N.eqb status 404); intros H; now injection H as <- <-.
Qed.

Lemma collect_loop_files (repos : list jsstring) :
  forall repoMetadata w r w',
    collect_loop repos repoMetadata w = (r, w') -> files w' = files w.
Proof.
  induction repos as [|repo repos IH]; intros rm w r w' H; simpl in H.
  - unfold ret in H. now injection H as <- <-.
  - unfold bind in H. destruct (collect_one rm repo w) as [[rm'|e] w1] eqn:E;
      apply collect_one_files in E.
    + apply IH in H. congruence.
    + injection H as <- <-. assumption.
Qed.

Lemma collect_loop_app (pre post : list jsstring) :
  forall repoMetadata w,
    collect_loop (pre ++ post) repoMetadata w
    = match collect_loop pre repoMetadata w with
      | (Ok repoMetadata', w1) => collect_loop post repoMetadata' w1
      | (Err e, w1) => (Err e, w1)
      end.
Proof.
  induction pre as [|repo pre IH]; intros rm w; simpl; [reflexivity|].
  unfold bind. destruct (collect_one rm repo w) as [[rm'|e] w1];
    [apply IH|reflexivity].
Qed.

Lemma getRepos_loop_files (fuel : nat) :
  forall url repos w r w',
    getRepos_loop fuel url repos w = Some (r, w') -> files w' = files w.
Proof.
  induction fuel as [|fuel IH]; intros url repos w r w' H; simpl in H;
    [discriminate|].
  unfold github_request, bind, exchange, ret, throw in H.
  cbn [requests files console] in H.
  destruct (server (requests w) (GithubGet url)) as [status link data|];
    [|now injection H as <- <-].
  destruct (N.leb 200 status && N.ltb status 300)%bool;
    [|now injection H as <- <-].
  destruct data as [names|content|]; try (now injection H as <- <-).
  destruct (next_url link) as [[url'|]|e]; try (now injection H as <- <-).
  apply IH in H. exact H.
Qed.

(** C4.  In the loop of the collection, a repository whose metadata file
    is answered with 404 is logged as having none and the loop goes on
    with the next repository, the mapping as it was.  An answer with
    another error status, and content that does not parse, are thrown out
    of the loop; thrown out of the collection they end [main] with that
    error before any file is written, and the module body dumps it on the
    console. *)
Theorem metadata_fetch_policy :
  (forall repo rest repoMetadata w link data,
     server (requests w) (GithubGet (contents_url repo))
     = Response 404 link data ->
     let w1 :=
       mkWorld (GithubGet (contents_url repo) :: requests w) (files w)
         (Info (chalk_red figures_cross ++ js " " ++ repo
                ++ js " had no .repo-metadata.json") :: console w) in
     collect_one repoMetadata repo w = (Ok repoMetadata, w1)
     /\ collect_loop (repo :: rest) repoMetadata w
        = collect_loop rest repoMetadata w1)
  /\ (forall repo rest repoMetadata w e,
        fetch_fails (server (requests w) (GithubGet (contents_url repo))) e ->
        exists w1,
          collect_one repoMetadata repo w = (Err e, w1)
          /\ collect_loop (repo :: rest) repoMetadata w = (Err e, w1))
  /\ (forall fuel w pre repo rest w1 repoMetadata w2 e,
        getRepos fuel w = Some (Ok (pre ++ repo :: rest), w1) ->
        collect_loop pre [] (announced (pre ++ repo :: rest) w1)
        = (Ok repoMetadata, w2) ->
        fetch_fails (server (requests w2) (GithubGet (contents_url repo))) e ->
        exists w3,
          main fuel w = Some (Err e, w3)
          /\ files w3 = files w
          /\ (forall c token, GITHUB_TOKEN = Some (c :: token) ->
                script fuel w = Some (Ok tt, console_error e w3))).
Proof.
  split; [|split].
  - intros repo rest rm w link data Hs w1.
    pose proof (collect_one_not_found rm repo w Hs) as H. fold w1 in H.
    split; [assumption|]. simpl. unfold bind. now rewrite H.
  - intros repo rest rm w e Hf. eexists.
    pose proof (collect_one_fails rm repo w Hf) as H.
    split; [exact H|]. simpl. unfold bind. now rewrite H.
  - intros fuel w pre repo rest w1 rm w2 e Hg Hc Hf.
    pose proof (collect_one_fails rm repo w2 Hf) as H1.
    assert (collectRepoMetadata (pre ++ repo :: rest)
              (announced (pre ++ repo :: rest) w1)
            = (Err e, mkWorld (GithubGet (contents_url repo) :: requests w2)
                        (files w2) (console w2))) as Hall.
    { unfold collectRepoMetadata. rewrite collect_loop_app, Hc. simpl.
      unfold bind. now rewrite H1. }
    assert (main fuel w
            = Some (Err e, mkWorld (GithubGet (contents_url repo) :: requests w2)
                             (files w2) (console w2))) as Hm.
    { unfold main. rewrite Hg. unfold bind at 1.
      unfold announced in Hall.
      destruct (checkpoint _ true w1) as [[[]|e0] wa] eqn:Ec;
        [|discriminate Ec].
      simpl in Hall. unfold bind at 1. now rewrite Hall. }
    eexists. split; [exact Hm|]. split.
    + cbn [files]. apply collect_loop_files in Hc. rewrite Hc.
      apply getRepos_loop_files in Hg. exact Hg.
    + intros c token Ht. unfold script. now rewrite Ht, Hm.
Qed.

(** ** Repository discovery *)

Lemma getRepos_loop_chain (w : World) (url : jsstring)
    (pages : list (list jsstring)) (w' : World) :
  page_chain w url pages w' ->
  forall repos fuel, length pages <= fuel ->
    getRepos_loop fuel url repos w = Some (Ok (repos ++ concat pages), w').
Proof.
  induction 1 as [w url link names w1 Hr Hn
                 |w url link names w1 url' pages w' Hr Hn _ IH];
    intros repos fuel Hf.
  - destruct fuel as [|fuel]; [simpl in Hf; lia|].
    simpl. rewrite Hr, Hn. now rewrite app_nil_r.
  - destruct fuel as [|fuel]; [simpl in Hf; lia|].
    simpl. rewrite Hr, Hn. rewrite IH by (simpl in Hf; lia).
    now rewrite <- app_assoc.
Qed.

Lemma github_request_logged (url : jsstring) (w w' : World)
    (r : result (option jsstring * body)) :
  github_request url w = (r, w') -> requests w' = GithubGet url :: requests w.
Proof.
  unfold github_request, bind, exchange, ret, throw.
  cbn [requests files console].
  destruct (server (requests w) (GithubGet url)) as [status link data|];
    [|intros H; now injection H as <- <-].
  destruct (N.leb 200 status && N.ltb status 300)%bool;
    intros H; now injection H as <- <-.
Qed.

Lemma page_chain_requests (w : World) (url : jsstring)
    (pages : list (list jsstring)) (w' : World) :
  page_chain w url pages w' ->
  length (requests w') = length pages + length (requests w).
Proof.
  induction 1 as [w url link names w1 Hr Hn
                 |w url link names w1 url' pages w' Hr Hn _ IH].
  - apply github_request_logged in Hr. now rewrite Hr.
  - apply github_request_logged in Hr. rewrite IH, Hr. simpl. lia.
Qed.

Lemma getRepos_loop_inv (fuel : nat) :
  forall url repos w result w',
    getRepos_loop fuel url repos w = Some (Ok result, w') ->
    exists pages,
      page_chain w url pages w' /\ result = repos ++ concat pages.
Proof.
  induction fuel as [|fuel IH]; intros url repos w result w' H; simpl in H;
    [discriminate|].
  destruct (github_request url w) as [[[link data]|e] w1] eqn:Hr;
    [|discriminate].
  destruct data as [names|content|]; try discriminate.
  destruct (next_url link) as [[url'|]|e] eqn:Hn; [| |discriminate].
  - apply IH in H as (pages & Hc & ->). exists (names :: pages).
    split; [eapply chain_next; eassumption|].
    simpl. now rewrite app_assoc.
  - injection H as <- <-. exists [names].
    split; [eapply chain_last; eassumption|].
    simpl. now rewrite app_nil_r.
Qed.

(** C2, as the code has it.  Discovery requests the search URL and then
    every next link: when the responses carry the pages [pages], the last
    of them without a next link, it returns their items concatenated in
    order, one request per page, with fuel for as many pages; and whatever
    it returns arises that way.  Nothing is removed: the sequence has a
    duplicate exactly when the pages concatenated have one.  A response
    ends the chain exactly when its link header is absent or empty or has
    no next relation. *)
Theorem getRepos_concatenates_pages :
  (forall w pages w',
     page_chain w search_url pages w' ->
     forall fuel, length pages <= fuel ->
       getRepos fuel w = Some (Ok (concat pages), w'))
  /\ (forall fuel w repos w',
        getRepos fuel w = Some (Ok repos, w') ->
        exists pages,
          page_chain w search_url pages w'
          /\ repos = concat pages
          /\ length (requests w') = length pages + length (requests w)
          /\ (NoDup repos <-> NoDup (concat pages)))
  /\ (forall link,
        next_url link = Ok None
        <-> (forall c header,
               link = Some (c :: header) ->
               assoc (js "next") (parseLinkHeader (c :: header)) = None)).
Proof.
  split; [|split].
  - intros w pages w' Hc fuel Hf. unfold getRepos.
    now rewrite (@getRepos_loop_chain _ _ _ _ Hc [] fuel Hf).
  - intros fuel w repos w' H. apply getRepos_loop_inv in H as (pages & Hc & ->).
    exists pages. split; [assumption|]. split; [reflexivity|].
    split; [exact (page_chain_requests Hc)|]. reflexivity.
  - intros link. unfold next_url. destruct link as [[|c header]|].
    + split; [intros _ c h Hl; discriminate Hl|reflexivity].
    + destruct (assoc (js "next") (parseLinkHeader (c :: header))) as [u|] eqn:E.
      * split.
        -- destruct (URL_href u); discriminate.
        -- intros H. specialize (H c header eq_refl). congruence.
      * split; [|reflexivity]. intros _ c' h' Hl. injection Hl as <- <-.
        exact E.
    + split; [intros _ c h Hl; discriminate Hl|reflexivity].
Qed.

End CollectionClaims.

Lemma metadata_fetch_policy_witness :
  exists w3,
    main (host := failing_host) 1 world0 = Some (Err (HttpError 500), w3)
    /\ files w3 = files world0
    /\ (forall c token,
          GITHUB_TOKEN (Host := failing_host) = Some (c :: token) ->
          script (host := failing_host) 1 world0
          = Some (Ok tt, console_error (HttpError 500) w3)).
Proof.
  eapply (proj2 (proj2 (metadata_fetch_policy (host := failing_host)))
            1 world0 [js "googleapis/none"] (js "googleapis/broken") []).
  - vm_compute. reflexivity.
  - vm_compute. reflexivity.
  - vm_compute. apply fails_status; [reflexivity|discriminate].
Defined.

(** C2 as stated fails: when the second page lists a repository of the
    first page again, discovery returns it twice. *)
Lemma repeated_page_counterexample :
  getRepos (host := repeating_host) 2 world0
  = Some (Ok [js "googleapis/a"; js "googleapis/a"],
          mkWorld [GithubGet second_page; GithubGet search_url]
            (files world0) [])
  /\ ~ NoDup [js "googleapis/a"; js "googleapis/a"].
Proof.
  split; [vm_compute; reflexivity|].
  intros H. inversion H as [|x l Hin _]; subst. apply Hin. now left.
Qed.

Lemma getRepos_concatenates_pages_witness :
  getRepos (host := repeating_host) 2 world0
  = Some (Ok (concat [[js "googleapis/a"]; [js "googleapis/a"]]),
          mkWorld [GithubGet second_page; GithubGet search_url]
            (files world0) []).
Proof.
  apply (proj1 (getRepos_concatenates_pages (host := repeating_host))).
  - eapply chain_next; [vm_compute; reflexivity|vm_compute; reflexivity|].
    eapply chain_last; vm_compute; reflexivity.
  - simpl. lia.
Defined.

(** The end-to-end scenario of the specification: of two repositories,
    one with the metadata of the Vision library and one whose metadata
    file is answered with 404, the JSON file holds one entry, named
    [Vision], and the README one row, with the cross in the billing
    column. *)
Example end_to_end_scenario :
  exists w',
    script (host := scenario_host) 1 world0 = Some (Ok tt, w')
    /\ assoc (js "./libraries.json") (files w')
       = Some (compact_json (JArr [JObj
           [(js "api_id", JStr (js "x"));
            (js "name_pretty", JStr (js "Vision"));
            (js "product_documentation",
             JStr (js "https://cloud.google.com/vision/docs/"));
            (js "client_documentation", JStr (js "..."));
            (js "distribution_name", JStr (js "pkg"));
            (js "requires_billing", JBool true);
            (js "support_documentation",
             JStr (js "https://cloud.google.com/vision/docs/getting-support"))]]))
    /\ assoc (js "./README.md") (files w')
       = Some (js "# Libraries | [Vision](https://github.com/undefined) | [:notebook:](...) | `npm i pkg` | [enable](https://console.cloud.google.com/flows/enableapi?apiid=x) | "
               ++ [10006; 32; 124; 10]%N).
Proof.
  eexists. split; [vm_compute; reflexivity|].
  split; vm_compute; reflexivity.
Qed.

(** * Further properties *)

(** ** What each stage requests, writes and prints *)

Lemma reads_only_ret (kind : request -> Prop) (A : Type) (a : A) :
  reads_only kind 0 (ret a).
Proof.
  intros w r w' H. unfold ret in H. injection H as <- <-.
  split; [reflexivity|]. exists []. repeat split; [constructor|simpl; lia].
Qed.

Lemma reads_only_throw (kind : request -> Prop) (A : Type) (e : exn) :
  reads_only kind 0 (@throw A e).
Proof.
  intros w r w' H. unfold throw in H. injection H as <- <-.
  split; [reflexivity|]. exists []. repeat split; [constructor|simpl; lia].
Qed.

Lemma reads_only_lift (kind : request -> Prop) (A : Type) (x : result A) :
  reads_only kind 0 (lift x).
Proof.
  intros w r w' H. unfold lift in H. injection H as <- <-.
  split; [reflexivity|]. exists []. repeat split; [constructor|simpl; lia].
Qed.

Lemma reads_only_weaken (kind : request -> Prop) (n m : nat) (A : Type)
    (c : M A) :
  n <= m -> reads_only kind n c -> reads_only kind m c.
Proof.
  intros Hnm Hc w r w' H. apply Hc in H as (Hf & rs & Hr & Hk & Hl).
  split; [assumption|]. exists rs. repeat split; try assumption. lia.
Qed.

Lemma reads_only_bind (kind : request -> Prop) (n m : nat) (A B : Type)
    (c : M A) (f : A -> M B) :
  reads_only kind n c -> (forall a, reads_only kind m (f a)) ->
  reads_only kind (n + m) (bind c f).
Proof.
  intros Hc Hf w r w' H. unfold bind in H.
  destruct (c w) as [[a|e] w1] eqn:E; apply Hc in E as (Hf1 & rs1 & Hr1 & Hk1 & Hl1).
  - apply Hf in H as (Hf2 & rs2 & Hr2 & Hk2 & Hl2).
    split; [congruence|]. exists (rs2 ++ rs1).
    rewrite Hr2, Hr1, app_assoc. split; [reflexivity|].
    split; [now apply Forall_app|]. rewrite length_app. lia.
  - injection H as <- <-. split; [assumption|]. exists rs1.
    repeat split; try assumption. lia.
Qed.

Lemma silent_ret (A : Type) (a : A) : silent (ret a).
Proof. intros w r w' H. unfold ret in H. now injection H as <- <-. Qed.

Lemma silent_throw (A : Type) (e : exn) : silent (@throw A e).
Proof. intros w r w' H. unfold throw in H. now injection H as <- <-. Qed.

Lemma silent_lift (A : Type) (x : result A) : silent (lift x).
Proof. intros w r w' H. unfold lift in H. now injection H as <- <-. Qed.

Lemma silent_bind (A B : Type) (c : M A) (f : A -> M B) :
  silent c -> (forall a, silent (f a)) -> silent (bind c f).
Proof.
  intros Hc Hf w r w' H. unfold bind in H.
  destruct (c w) as [[a|e] w1] eqn:E; apply Hc in E.
  - apply Hf in H. congruence.
  - now injection H as <- <-.
Qed.

Section Traces.
Context {host : Host}.

Lemma reads_only_head_request (url : jsstring) :
  reads_only is_probe 1 (head_request url).
Proof.
  intros w r w' H. unfold head_request, bind, exchange, ret, throw in H.
  assert (files w' = files w /\ requests w' = Head url :: requests w)
    as [Hf Hr].
  { destruct (server (requests w) (Head url)); now injection H as <- <-. }
  split; [assumption|]. exists [Head url].
  repeat split; [assumption|repeat constructor|simpl; lia].
Qed.

Lemma silent_head_request (url : jsstring) : silent (head_request url).
Proof.
  intros w r w' H. unfold head_request, bind, exchange, ret, throw in H.
  destruct (server (requests w) (Head url)); now injection H as <- <-.
Qed.

Lemma reads_only_github_request (url : jsstring) :
  reads_only is_github 1 (github_request url).
Proof.
  intros w r w' H. pose proof (github_request_logged _ _ H) as Hr.
  assert (files w' = files w) as Hf.
  { unfold github_request, bind, exchange, ret, throw in H.
    cbn [requests files console] in H.
    destruct (server (requests w) (GithubGet url)) as [status link data|];
      [|now injection H as <- <-].
    destruct (N.leb 200 status && N.ltb status 300)%bool;
      now injection H as <- <-. }
  split; [assumption|]. exists [GithubGet url].
  repeat split; [assumption|repeat constructor|simpl; lia].
Qed.

Ltac stage :=
  repeat first
    [ apply reads_only_ret | apply reads_only_throw | apply reads_only_lift
    | apply reads_only_head_request
    | apply silent_ret | apply silent_throw | apply silent_lift
    | apply silent_head_request
    | apply silent_bind; [|intros ?]
    | match goal with
      | |- reads_only _ _ (match ?x with _ => _ end) => destruct x
      | |- silent (match ?x with _ => _ end) => destruct x
      | |- reads_only _ _ (let _ := _ in _) => cbv zeta
      | |- silent (let _ := _ in _) => cbv zeta
      end ].

Lemma process_record_reads_only (metadata : json) :
  reads_only is_probe 1 (process_record metadata).
Proof.
  unfold process_record.
  apply (@reads_only_bind is_probe 0 1); [stage|intros api_id].
  destruct (negb (ToBoolean api_id));
    [apply reads_only_weaken with (n := 0); [lia|stage]|].
  apply (@reads_only_bind is_probe 0 1); [stage|intros name].
  destruct name as [[| | |old_name| |]|];
    try solve [apply reads_only_weaken with (n := 0); [lia|stage]].
  cbv zeta.
  apply (@reads_only_bind is_probe 0 1); [stage|intros pd].
  destruct (ToBoolean pd);
    [|apply reads_only_weaken with (n := 0); [lia|stage]].
  destruct pd as [[| | |docs| |]|];
    try solve [apply reads_only_weaken with (n := 0); [lia|stage]].
  cbv zeta.
  apply (@reads_only_bind is_probe 1 0); [stage|intros status; stage].
Qed.

Lemma process_record_silent (metadata : json) :
  silent (process_record metadata).
Proof. unfold process_record. stage. Qed.

End Traces.

(** ** Records, case by case *)

Section RecordCases.
Context {host : Host}.

(** The body of the loop on an object with a product identifier. *)
Lemma process_record_object (l : list (jsstring * json)) (w : World) :
  ToBoolean (assoc (js "api_id") l) = true ->
  process_record (JObj l) w
  = match assoc (js "name_pretty") l with
    | Some (JStr np) =>
      let l1 := assoc_set (js "name_pretty") (JStr (normalize_name np)) l in
      match assoc (js "product_documentation") l with
      | Some (JStr (c :: docs)) =>
        let url := candidate (normalize_name np) (c :: docs) in
        let w1 := mkWorld (Head url :: requests w) (files w) (console w) in
        match server (requests w) (Head url) with
        | Response status _ _ =>
          (Ok (Some (JObj (assoc_set (js "support_documentation")
                             (JStr (if N.eqb status 404 then c :: docs
                                    else url)) l1))), w1)
        | NoResponse => (Err NetworkError, w1)
        end
      | v => if ToBoolean v then (Err TypeError, w)
             else (Ok (Some (JObj l1)), w)
      end
    | _ => (Err TypeError, w)
    end.
Proof.
  intros Ha. unfold process_record, bind, lift, get_field, set_field.
  rewrite Ha. cbn [negb].
  destruct (assoc (js "name_pretty") l) as [[| | |np| |]|]; try reflexivity.
  rewrite (assoc_set_other (k := js "name_pretty")
             (k' := js "product_documentation")) by keys_differ.
  destruct (assoc (js "product_documentation") l)
    as [[|[]|[]|[|c docs]| |]|]; try reflexivity.
  cbn [ToBoolean]. unfold head_request, bind, exchange.
  cbn [requests files console]. cbv zeta.
  destruct (server (requests w) _) as [status link data|]; [|reflexivity].
  unfold ret. destruct (N.eqb status 404); reflexivity.
Qed.

Lemma has_api_id_pushed (k : jsstring) (metadata lib : json) (w w' : World) :
  process_record metadata w = (Ok (Some lib), w') ->
  has_api_id (k, metadata) = true.
Proof.
  intros H. apply process_record_pushed in H as (l & np & -> & Ha & _).
  exact Ha.
Qed.

Lemma has_api_id_skipped (k : jsstring) (metadata : json) (w w' : World) :
  process_record metadata w = (Ok None, w') ->
  has_api_id (k, metadata) = false.
Proof.
  intros H. destruct metadata as [|b|x|s|l|l]; try reflexivity.
  unfold has_api_id. cbn [snd].
  destruct (ToBoolean (assoc (js "api_id") l)) eqn:Ha; [|reflexivity].
  rewrite (process_record_object l w Ha) in H.
  destruct (assoc (js "name_pretty") l) as [[| | |np| |]|]; try discriminate.
  cbv zeta in H.
  destruct (assoc (js "product_documentation") l)
    as [[|[]|[]|[|c docs]| |]|]; try discriminate.
  destruct (server (requests w) _); discriminate.
Qed.

(** A record that is not an object with a product identifier has no
    effect: [null] throws, everything else is passed over. *)
Lemma process_record_inert (k : jsstring) (metadata : json) (w : World) :
  has_api_id (k, metadata) = false ->
  process_record metadata w
  = (match metadata with JNull => Err TypeError | _ => Ok None end, w).
Proof.
  intros Hk. destruct metadata as [|b|x|s|l|l]; try reflexivity.
  now apply process_record_skipped.
Qed.

Lemma collect_libraries_reads_only (entries : list (jsstring * json)) :
  forall libraries,
    reads_only is_probe (length (filter has_api_id entries))
      (collect_libraries entries libraries).
Proof.
  induction entries as [|[k md] entries IH]; intros libs; simpl.
  - apply reads_only_ret.
  - destruct (has_api_id (k, md)) eqn:Hk.
    + apply (@reads_only_bind is_probe 1 _);
        [apply process_record_reads_only|].
      intros [m|]; apply IH.
    + apply (@reads_only_bind is_probe 0 _); [|intros [m|]; apply IH].
      intros w r w' H. rewrite (process_record_inert k md w Hk) in H.
      injection H as <- <-. split; [reflexivity|]. exists [].
      repeat split; [constructor|simpl; lia].
Qed.

Lemma collect_libraries_silent (entries : list (jsstring * json)) :
  forall libraries, silent (collect_libraries entries libraries).
Proof.
  induction entries as [|[k md] entries IH]; intros libs; simpl.
  - apply silent_ret.
  - apply silent_bind; [apply process_record_silent|].
    intros [m|]; apply IH.
Qed.

Lemma collect_libraries_count (entries : list (jsstring * json)) :
  forall acc w libs w',
    collect_libraries entries acc w = (Ok libs, w') ->
    length libs = length acc + length (filter has_api_id entries).
Proof.
  induction entries as [|[k md] entries IH]; intros acc w libs w' H;
    simpl in H.
  - unfold ret in H. injection H as <- <-. simpl. lia.
  - unfold bind in H. destruct (process_record md w) as [[[lib|]|e] w1] eqn:E;
      [| |discriminate].
    + apply IH in H. rewrite length_app in H. simpl in *.
      rewrite (has_api_id_pushed k _ _ E). simpl. lia.
    + apply IH in H. simpl. now rewrite (has_api_id_skipped k _ _ E).
Qed.

Lemma collect_libraries_named (entries : list (jsstring * json)) :
  forall w libs w',
    collect_libraries entries [] w = (Ok libs, w') -> Forall named libs.
Proof.
  intros w libs w' H.
  apply collect_libraries_origin in H as (news & -> & Hn). simpl.
  eapply Forall_impl; [|exact Hn].
  intros lib (k & md & wa & wb & _ & Hp). now apply pushed_named in Hp.
Qed.

(** The comparator of line 113 never throws on the libraries
    collected. *)
Lemma sort_collected (libs : list json) :
  Forall named libs -> exists sorted, sort_by compare_libraries libs = Ok sorted.
Proof.
  apply sort_by_ok. intros x y [nx Hx] [ny Hy].
  unfold compare_libraries. rewrite Hx, Hy. simpl. eauto.
Qed.

End RecordCases.

(** ** The generation as a whole *)

Section Generation.
Context {host : Host}.

Lemma generateReadme_requests (repoMetadata : list (jsstring * json))
    (w : World) :
  exists rs,
    requests (snd (generateReadme repoMetadata w)) = rs ++ requests w
    /\ Forall is_probe rs
    /\ length rs <= length (filter has_api_id repoMetadata).
Proof.
  unfold generateReadme, bind, readFileSync, lift.
  destruct (assoc (js "./bin/README.mustache") (files w)) as [template|];
    [|exists []; repeat split; [constructor|simpl; lia]].
  destruct (collect_libraries repoMetadata [] w) as [[libs|e] w1] eqn:Ec;
    apply collect_libraries_reads_only in Ec as (_ & Hr); [|exact Hr].
  destruct (sort_by compare_libraries libs) as [sorted|e]; [|exact Hr].
  destruct (writeFileSync (js "./libraries.json") _ w1) as [[[]|e] w2] eqn:Ej;
    apply writeFileSync_frame in Ej as (Hq & _ & _);
    [|cbn [snd]; now rewrite Hq].
  destruct (render_rows sorted []) as [partial|e];
    [|cbn [snd]; now rewrite Hq].
  destruct (writeFileSync (js "./README.md") _ w2) as [r w3] eqn:Em.
  apply writeFileSync_frame in Em as (Hq' & _ & _).
  cbn [snd]. now rewrite Hq', Hq.
Qed.

(** X1.  Whatever its outcome, the generation prints nothing, requests
    nothing but probes, at most one for each entry that is an object with
    a product identifier, and leaves every file but the two outputs as it
    was. *)
Theorem generateReadme_footprint (repoMetadata : list (jsstring * json))
    (w : World) :
  let w' := snd (generateReadme repoMetadata w) in
  console w' = console w
  /\ (exists rs,
        requests w' = rs ++ requests w /\ Forall is_probe rs
        /\ length rs <= length (filter has_api_id repoMetadata))
  /\ (forall path,
        path <> js "./libraries.json" -> path <> js "./README.md" ->
        assoc path (files w') = assoc path (files w)).
Proof.
  cbv zeta. split; [|split; [apply generateReadme_requests|]];
    unfold generateReadme, bind, readFileSync, lift;
    (destruct (assoc (js "./bin/README.mustache") (files w)) as [template|];
     [|reflexivity]);
    (destruct (collect_libraries repoMetadata [] w) as [[libs|e] w1] eqn:Ec;
     pose proof (collect_libraries_silent _ _ _ Ec) as Hc;
     apply collect_libraries_reads_only in Ec as (Hf & _)).
  - (* the console *)
    destruct (sort_by compare_libraries libs) as [sorted|e]; [|exact Hc].
    destruct (writeFileSync (js "./libraries.json") _ w1)
      as [[[]|e] w2] eqn:Ej;
      apply writeFileSync_frame in Ej as (_ & Hc2 & _);
      [|cbn [snd]; congruence].
    destruct (render_rows sorted []) as [partial|e];
      [|cbn [snd]; congruence].
    destruct (writeFileSync (js "./README.md") _ w2) as [r w3] eqn:Em.
    apply writeFileSync_frame in Em as (_ & Hc3 & _).
    cbn [snd]. congruence.
  - exact Hc.
  - (* the other files *)
    intros path H1 H2.
    destruct (sort_by compare_libraries libs) as [sorted|e];
      [|cbn [snd]; now rewrite Hf].
    destruct (writeFileSync (js "./libraries.json") _ w1)
      as [[[]|e] w2] eqn:Ej;
      apply writeFileSync_frame in Ej as (_ & _ & Hf2);
      [|cbn [snd]; now rewrite Hf2, Hf].
    destruct (render_rows sorted []) as [partial|e];
      [|cbn [snd]; now rewrite Hf2, Hf].
    destruct (writeFileSync (js "./README.md") _ w2) as [r w3] eqn:Em.
    apply writeFileSync_frame in Em as (_ & _ & Hf3).
    cbn [snd]. now rewrite Hf3, Hf2, Hf.
  - intros path H1 H2. cbn [snd]. now rewrite Hf.
Qed.

(** X2.  The ways the generation fails.  The template is missing, and
    then nothing has happened.  Or a record throws, and then no file has
    been written.  Or the records are collected and sorted, sorting never
    throws, and one of the three steps after it fails: the write of the
    JSON file, and then the README is as it was; the printing of a row,
    and then the JSON file has been written and the README is as it was;
    the write of the README, and then the JSON file has been written.  A
    write that fails throws a file system error and leaves in the file
    what the host says. *)
Theorem generateReadme_failure (repoMetadata : list (jsstring * json))
    (w w' : World) (e : exn) :
  generateReadme repoMetadata w = (Err e, w') ->
  (assoc (js "./bin/README.mustache") (files w) = None
   /\ e = FsError /\ w' = w)
  \/ (collect_libraries repoMetadata [] w = (Err e, w')
      /\ files w' = files w)
  \/ (exists libs w1 sorted,
        collect_libraries repoMetadata [] w = (Ok libs, w1)
        /\ sort_by compare_libraries libs = Ok sorted
        /\ ((writeFileSync (js "./libraries.json")
               (JSON_stringify (JArr sorted)) w1 = (Err e, w')
             /\ e = FsError
             /\ assoc (js "./README.md") (files w')
                = assoc (js "./README.md") (files w))
            \/ (render_rows sorted [] = Err e
                /\ assoc (js "./libraries.json") (files w')
                   = Some (JSON_stringify (JArr sorted))
                /\ assoc (js "./README.md") (files w')
                   = assoc (js "./README.md") (files w))
            \/ (exists template partial w2,
                  assoc (js "./bin/README.mustache") (files w) = Some template
                  /\ render_rows sorted [] = Ok partial
                  /\ writeFileSync (js "./README.md")
                       (string_replace (js "{{libraries}}") partial template)
                       w2 = (Err e, w')
                  /\ e = FsError
                  /\ assoc (js "./libraries.json") (files w')
                     = Some (JSON_stringify (JArr sorted))))).
Proof.
  unfold generateReadme, bind, readFileSync, lift. intros H.
  destruct (assoc (js "./bin/README.mustache") (files w)) as [template|];
    [|injection H as <- <-; now left].
  right.
  destruct (collect_libraries repoMetadata [] w) as [[libs|e0] w1] eqn:Ec.
  - right. destruct (sort_collected (collect_libraries_named _ _ Ec))
      as [sorted Hs].
    rewrite Hs in H. exists libs, w1, sorted.
    split; [reflexivity|]. split; [assumption|].
    apply collect_libraries_reads_only in Ec as (Hf & _).
    destruct (writeFileSync (js "./libraries.json") _ w1)
      as [[[]|e1] w2] eqn:Ej.
    + right. apply writeFileSync_done in Ej. subst w2.
      destruct (render_rows sorted []) as [partial|e1] eqn:Er.
      * right. exists template, partial. eexists.
        split; [reflexivity|]. split; [reflexivity|].
        split; [exact H|].
        split; [eapply writeFileSync_thrown; exact H|].
        apply writeFileSync_frame in H as (_ & _ & Hf3).
        rewrite Hf3 by keys_differ. cbn [files]. apply assoc_set_same.
      * left. injection H as <- <-. split; [reflexivity|].
        cbn [files]. split; [apply assoc_set_same|].
        rewrite assoc_set_other by keys_differ. now rewrite Hf.
    + left. injection H as <- <-. split; [reflexivity|].
      split; [eapply writeFileSync_thrown; exact Ej|].
      apply writeFileSync_frame in Ej as (_ & _ & Hf2).
      rewrite Hf2 by keys_differ. now rewrite Hf.
  - left. injection H as <- <-. split; [reflexivity|].
    now apply collect_libraries_reads_only in Ec as (Hf & _).
Qed.

(** X3.  A generation that completes writes as many entries, and rows, as
    the mapping has objects with a product identifier. *)
Theorem generateReadme_count (repoMetadata : list (jsstring * json))
    (w w' : World) :
  generateReadme repoMetadata w = (Ok tt, w') ->
  exists sorted,
    written w w' sorted
    /\ length sorted = length (filter has_api_id repoMetadata).
Proof.
  intros H. apply generateReadme_written in H
    as (libs & w1 & sorted & Hc & Hs & Hw).
  exists sorted. split; [assumption|].
  apply collect_libraries_count in Hc. simpl in Hc. rewrite <- Hc.
  symmetry. apply Permutation_length. eapply sort_by_perm. exact Hs.
Qed.

End Generation.

Lemma generateReadme_failure_witness :
  (exists sorted,
     render_rows (host := offline_host) sorted [] = Err TypeError
     /\ assoc (js "./libraries.json")
          (files (snd (generateReadme (host := offline_host)
                         [(js "googleapis/foo", unprintable_metadata)] world0)))
        = Some (compact_json (JArr sorted))
     /\ assoc (js "./README.md")
          (files (snd (generateReadme (host := offline_host)
                         [(js "googleapis/foo", unprintable_metadata)] world0)))
        = None)
  /\ (exists sorted,
        fst (generateReadme
               (host := disk_full (js "./README.md") catalog_host)
               catalog world0) = Err FsError
        /\ assoc (js "./libraries.json")
             (files (snd (generateReadme
                            (host := disk_full (js "./README.md") catalog_host)
                            catalog world0)))
           = Some (compact_json (JArr sorted))).
Proof.
  split.
  - assert (generateReadme (host := offline_host)
              [(js "googleapis/foo", unprintable_metadata)] world0
            = (Err TypeError,
               snd (generateReadme (host := offline_host)
                      [(js "googleapis/foo", unprintable_metadata)] world0)))
      as Hrun by (vm_compute; reflexivity).
    destruct (generateReadme_failure (host := offline_host) _ _ Hrun)
      as [(Ht & _)|[(Hc & _)|(libs & w1 & sorted & _ & _ &
            [(_ & He & _)|[(Hr & Hj & Hm)|(t & p & w2 & _ & _ & _ & He & _)]])]].
    + vm_compute in Ht. discriminate Ht.
    + vm_compute in Hc. discriminate Hc.
    + discriminate He.
    + exists sorted. split; [exact Hr|]. split; [exact Hj|exact Hm].
    + discriminate He.
  - assert (generateReadme
              (host := disk_full (js "./README.md") catalog_host)
              catalog world0
            = (Err FsError,
               snd (generateReadme
                      (host := disk_full (js "./README.md") catalog_host)
                      catalog world0)))
      as Hrun by (vm_compute; reflexivity).
    destruct (generateReadme_failure
                (host := disk_full (js "./README.md") catalog_host) _ _ Hrun)
      as [(Ht & _)|[(Hc & _)|(libs & w1 & sorted & Hc & Hs &
            [(Hw & _)|[(Hr & _)|(t & p & w2 & _ & _ & _ & _ & Hj)]])]].
    + vm_compute in Ht. discriminate Ht.
    + vm_compute in Hc. discriminate Hc.
    + vm_compute in Hw. discriminate Hw.
    + vm_compute in Hc. injection Hc as <- <-.
      vm_compute in Hs. injection Hs as <-.
      vm_compute in Hr. discriminate Hr.
    + exists sorted. split; [vm_compute; reflexivity|exact Hj].
Defined.

Lemma generateReadme_count_witness :
  exists sorted,
    written (host := catalog_host) world0
      (snd (generateReadme (host := catalog_host) catalog world0)) sorted
    /\ length sorted = 2.
Proof.
  apply (generateReadme_count (host := catalog_host) catalog world0).
  vm_compute. reflexivity.
Defined.

(** ** Errors of a single record *)

Section RecordErrors.
Context {host : Host}.

(** X4.  What a record that cannot be processed does.  A metadata file
    that is [null] throws; one that is another non-object is passed over.
    With a product identifier, a [name_pretty] that is not a string
    throws, and so does a truthy [product_documentation] that is not a
    string, both before any request; a probe that gets no response throws
    after the request.  Nothing is pushed in any of these cases. *)
Theorem process_record_errors :
  (forall w, process_record JNull w = (Err TypeError, w))
  /\ (forall metadata w,
        (forall l, metadata <> JObj l) -> metadata <> JNull ->
        process_record metadata w = (Ok None, w))
  /\ (forall l w,
        ToBoolean (assoc (js "api_id") l) = true ->
        (forall np, assoc (js "name_pretty") l <> Some (JStr np)) ->
        process_record (JObj l) w = (Err TypeError, w))
  /\ (forall l np w,
        ToBoolean (assoc (js "api_id") l) = true ->
        assoc (js "name_pretty") l = Some (JStr np) ->
        ToBoolean (assoc (js "product_documentation") l) = true ->
        (forall pd, assoc (js "product_documentation") l <> Some (JStr pd)) ->
        process_record (JObj l) w = (Err TypeError, w))
  /\ (forall l np pd w,
        ToBoolean (assoc (js "api_id") l) = true ->
        assoc (js "name_pretty") l = Some (JStr np) ->
        assoc (js "product_documentation") l = Some (JStr pd) -> pd <> [] ->
        server (requests w) (Head (candidate (normalize_name np) pd))
        = NoResponse ->
        process_record (JObj l) w
        = (Err NetworkError,
           mkWorld (Head (candidate (normalize_name np) pd) :: requests w)
             (files w) (console w))).
Proof.
  split; [reflexivity|]. split; [|split; [|split]].
  - intros md w Ho Hn. destruct md as [|b|x|s|l|l]; try reflexivity.
    + congruence.
    + now destruct (Ho l).
  - intros l w Ha Hn. rewrite (process_record_object l w Ha).
    destruct (assoc (js "name_pretty") l) as [[| | |np| |]|]; try reflexivity.
    now destruct (Hn np).
  - intros l np w Ha Hn Ht Hp. rewrite (process_record_object l w Ha), Hn.
    cbv zeta.
    destruct (assoc (js "product_documentation") l)
      as [[|[]|x|[|c docs]| |]|]; try reflexivity; try discriminate.
    + now rewrite Ht.
    + now destruct (Hp (c :: docs)).
  - intros l np pd w Ha Hn Hp Hne Hs.
    rewrite (process_record_object l w Ha), Hn, Hp. cbv zeta.
    destruct pd as [|c docs]; [congruence|]. now rewrite Hs.
Qed.


End RecordErrors.

Lemma process_record_errors_witness :
  process_record (host := offline_host) vision_metadata world0
  = (Err NetworkError,
     mkWorld [Head (js "https://cloud.google.com/vision/docs/getting-support")]
       (files world0) []).
Proof.
  apply (proj2 (proj2 (proj2 (proj2 (process_record_errors
           (host := offline_host)))))
           _ (js "Google Cloud Vision")
           (js "https://cloud.google.com/vision/docs/") world0);
    try reflexivity.
  discriminate.
Defined.


(** ** The mapping from repositories to metadata *)

Lemma assoc_none_keys (A : Type) (k : jsstring) (l : list (jsstring * A)) :
  assoc k l = None <-> ~ In k (map fst l).
Proof.
  induction l as [|[k' v'] l IH]; simpl; [tauto|].
  destruct (jsstring_eqb k' k) eqn:E.
  - apply jsstring_eqb_eq in E. split; [discriminate|]. intros H. tauto.
  - rewrite IH. split.
    + intros H [H1|H1]; [|tauto]. subst k'. now rewrite jsstring_eqb_refl in E.
    + tauto.
Qed.

Lemma assoc_set_keys (A : Type) (k : jsstring) (v : A)
    (l : list (jsstring * A)) :
  map fst (assoc_set k v l)
  = match assoc k l with
    | Some _ => map fst l
    | None => map fst l ++ [k]
    end.
Proof.
  induction l as [|[k' v'] l IH]; simpl; [reflexivity|].
  destruct (jsstring_eqb k' k) eqn:E; simpl.
  - apply jsstring_eqb_eq in E. now subst k'.
  - rewrite IH. now destruct (assoc k l).
Qed.

Lemma assoc_set_In (A : Type) (k : jsstring) (v : A)
    (l : list (jsstring * A)) (kv : jsstring * A) :
  In kv (assoc_set k v l) -> kv = (k, v) \/ In kv l.
Proof.
  induction l as [|[k' v'] l IH]; simpl.
  - intros [H|[]]. now left.
  - destruct (jsstring_eqb k' k); simpl; intros [H|H]; auto.
    apply IH in H. tauto.
Qed.

Lemma insert_index_same (A : Type) (i : N) (k : jsstring) (v : A)
    (l : list (jsstring * A)) :
  assoc k l = None -> assoc k (insert_index i k v l) = Some v.
Proof.
  induction l as [|[k' v'] l IH]; simpl; intros H.
  - now rewrite jsstring_eqb_refl.
  - destruct (jsstring_eqb k' k) eqn:E; [discriminate|].
    destruct (array_index k') as [j|];
      [destruct (N.ltb j i)|]; simpl; rewrite ?E, ?jsstring_eqb_refl; auto.
Qed.

Lemma insert_index_other (A : Type) (i : N) (k k' : jsstring) (v : A)
    (l : list (jsstring * A)) :
  k <> k' -> assoc k' (insert_index i k v l) = assoc k' l.
Proof.
  intros Hk. induction l as [|[k0 v0] l IH]; simpl.
  - now rewrite jsstring_eqb_neq.
  - destruct (array_index k0) as [j|];
      [destruct (N.ltb j i)|]; simpl;
      rewrite ?(jsstring_eqb_neq Hk), ?IH; reflexivity.
Qed.

Lemma insert_index_keys (A : Type) (i : N) (k : jsstring) (v : A)
    (l : list (jsstring * A)) :
  Permutation (k :: map fst l) (map fst (insert_index i k v l)).
Proof.
  induction l as [|[k' v'] l IH]; simpl; [apply Permutation_refl|].
  destruct (array_index k') as [j|];
    [destruct (N.ltb j i)|]; simpl; try apply Permutation_refl.
  eapply perm_trans; [apply perm_swap|]. now apply perm_skip.
Qed.

Lemma insert_index_In (A : Type) (i : N) (k : jsstring) (v : A)
    (l : list (jsstring * A)) (kv : jsstring * A) :
  In kv (insert_index i k v l) -> kv = (k, v) \/ In kv l.
Proof.
  induction l as [|[k' v'] l IH]; simpl.
  - intros [H|[]]. now left.
  - destruct (array_index k') as [j|];
      [destruct (N.ltb j i)|]; simpl; intros [H|H]; auto.
    apply IH in H. tauto.
Qed.

Lemma object_set_same (A : Type) (k : jsstring) (v : A)
    (l : list (jsstring * A)) :
  assoc k (object_set k v l) = Some v.
Proof.
  unfold object_set. destruct (array_index k) as [i|];
    [destruct (assoc k l) eqn:E|]; try apply assoc_set_same.
  now apply insert_index_same.
Qed.

Lemma object_set_other (A : Type) (k k' : jsstring) (v : A)
    (l : list (jsstring * A)) :
  k <> k' -> assoc k' (object_set k v l) = assoc k' l.
Proof.
  intros Hk. unfold object_set. destruct (array_index k) as [i|];
    [destruct (assoc k l) eqn:E|]; try now apply assoc_set_other.
  now apply insert_index_other.
Qed.

Lemma object_set_In (A : Type) (k : jsstring) (v : A)
    (l : list (jsstring * A)) (kv : jsstring * A) :
  In kv (object_set k v l) -> kv = (k, v) \/ In kv l.
Proof.
  unfold object_set. destruct (array_index k) as [i|];
    [destruct (assoc k l) eqn:E|]; try apply assoc_set_In.
  apply insert_index_In.
Qed.

Lemma object_set_NoDup (A : Type) (k : jsstring) (v : A)
    (l : list (jsstring * A)) :
  NoDup (map fst l) -> NoDup (map fst (object_set k v l)).
Proof.
  intros Hl.
  assert (assoc k l = None -> NoDup (k :: map fst l)) as Hnew.
  { intros E. constructor; [now apply assoc_none_keys|assumption]. }
  unfold object_set. destruct (array_index k) as [i|];
    [destruct (assoc k l) eqn:E|].
  - rewrite assoc_set_keys, E. assumption.
  - eapply Permutation_NoDup; [apply insert_index_keys|now apply Hnew].
  - rewrite assoc_set_keys. destruct (assoc k l) eqn:E; [assumption|].
    eapply Permutation_NoDup; [|now apply Hnew].
    apply Permutation_cons_append.
Qed.

Lemma digits_value_digits (s : jsstring) :
  forall acc n,
    digits_value s acc = Some n ->
    forallb (fun c => (N.leb 48 c && N.leb c 57)%bool) s = true.
Proof.
  induction s as [|c s IH]; intros acc n H; [reflexivity|].
  simpl in H. simpl forallb.
  destruct (N.leb 48 c && N.leb c 57)%bool; [|discriminate].
  now apply IH in H.
Qed.

Lemma array_index_digits (k : jsstring) (n : N) :
  array_index k = Some n ->
  forallb (fun c => (N.leb 48 c && N.leb c 57)%bool) k = true.
Proof.
  intros H.
  assert (k = [48%N]
          \/ exists m, digits_value k 0 = Some m) as [->|[m Hm]];
    [|reflexivity|now apply digits_value_digits in Hm].
  unfold array_index in H.
  destruct k as [|c k]; [discriminate|].
  destruct (digits_value (c :: k) 0) as [m|] eqn:E; [right; eauto|].
  left. destruct c as [|p]; [discriminate|].
  repeat (destruct p as [p|p|]; try discriminate H).
  destruct k; [reflexivity|discriminate].
Qed.

Lemma slash_no_index (k : jsstring) : In slash k -> array_index k = None.
Proof.
  intros Hk. destruct (array_index k) as [n|] eqn:E; [|reflexivity].
  apply array_index_digits in E. rewrite forallb_forall in E.
  apply E in Hk. discriminate Hk.
Qed.

Lemma assoc_set_new (A : Type) (k : jsstring) (v : A)
    (l : list (jsstring * A)) :
  assoc k l = None -> assoc_set k v l = l ++ [(k, v)].
Proof.
  induction l as [|[k' v'] l IH]; simpl; [reflexivity|].
  destruct (jsstring_eqb k' k); [discriminate|].
  intros H. now rewrite IH.
Qed.

Lemma object_set_slash (A : Type) (k : jsstring) (v : A)
    (l : list (jsstring * A)) :
  In slash k -> object_set k v l = assoc_set k v l.
Proof.
  intros Hk. unfold object_set. now rewrite slash_no_index by exact Hk.
Qed.

Section Collection.
Context {host : Host}.

Lemma collect_one_outcome (repoMetadata : list (jsstring * json))
    (repo : jsstring) (w w' : World) (r : result (list (jsstring * json))) :
  collect_one repoMetadata repo w = (r, w') ->
  requests w' = GithubGet (contents_url repo) :: requests w
  /\ files w' = files w
  /\ forall repoMetadata',
       r = Ok repoMetadata' ->
       (exists line, console w' = Info line :: console w)
       /\ (repoMetadata' = repoMetadata
           \/ exists content parsed,
                JSON_parse (base64_utf8 content) = Some parsed
                /\ repoMetadata' = object_set repo parsed repoMetadata).
Proof.
  unfold collect_one, try_catch, bind, github_request, bind, exchange,
    checkpoint, console_info, ret, throw.
  fold (contents_url repo). cbn [requests files console].
  destruct (server (requests w) _) as [status link data|];
    [|intros H; injection H as <- <-; repeat split; discriminate].
  destruct (N.leb 200 status && N.ltb status 300)%bool; cbn [snd].
  - destruct data as [names|content|];
      try (intros H; injection H as <- <-; repeat split; discriminate).
    destruct (JSON_parse (base64_utf8 content)) as [parsed|] eqn:Ep;
      intros H; injection H as <- <-; repeat split; try discriminate.
    + injection H as <-. cbn [console]. eauto.
    + injection H as <-. right. eauto.
  - destruct (N.eqb status 404); intros H; injection H as <- <-;
      repeat split; try discriminate.
    + injection H as <-. cbn [console]. eauto.
    + injection H as <-. now left.
Qed.

(** What is stored by the body of the loop was fetched by it. *)
Lemma collect_one_stored (repoMetadata : list (jsstring * json))
    (repo : jsstring) (w w' : World) (repoMetadata' : list (jsstring * json)) :
  collect_one repoMetadata repo w = (Ok repoMetadata', w') ->
  repoMetadata' = repoMetadata
  \/ exists parsed,
       repoMetadata' = object_set repo parsed repoMetadata
       /\ fetched_as w w' repo parsed.
Proof.
  unfold collect_one, try_catch, bind, github_request, bind, exchange,
    checkpoint, console_info, ret, throw.
  fold (contents_url repo). cbn [requests files console].
  destruct (server (requests w) _) as [status link data|] eqn:Es;
    [|discriminate].
  destruct (N.leb 200 status && N.ltb status 300)%bool eqn:Hs; cbn [snd].
  - destruct data as [names|content|]; try discriminate.
    destruct (JSON_parse (base64_utf8 content)) as [parsed|] eqn:Ep;
      [|discriminate].
    intros H. injection H as <- <-. right. exists parsed.
    split; [reflexivity|].
    exists [], [], status, link, content. cbn [app requests]. auto.
  - destruct (N.eqb status 404); [|discriminate].
    intros H. injection H as <- <-. now left.
Qed.

(** A fetch seen between two worlds is seen between an earlier and a
    later one. *)
Lemma fetched_as_wider (w0 w1 w2 w3 : World) (pre post : list request)
    (repo : jsstring) (metadata : json) :
  requests w1 = pre ++ requests w0 ->
  requests w3 = post ++ requests w2 ->
  fetched_as w1 w2 repo metadata -> fetched_as w0 w3 repo metadata.
Proof.
  intros H1 H3 (earlier & later & status & link & content & Hr & Hs & Hok & Hp).
  exists (earlier ++ pre), (post ++ later), status, link, content.
  split; [|split; [|split; assumption]].
  - rewrite H3, Hr, H1. now rewrite <- !app_assoc.
  - rewrite <- app_assoc, <- H1. exact Hs.
Qed.

(** X6.  A metadata file that is fetched and parses is stored under its
    repository, an identifier with a slash: looking the repository up in
    the mapping gives the parsed document, every other repository has
    what it had, a repository that is new goes last and one stored again
    keeps its place, one request has been made and one line printed. *)
Theorem collect_one_found (repoMetadata : list (jsstring * json))
    (repo content : jsstring) (w : World) (status : N)
    (link : option jsstring) (parsed : json) :
  In slash repo ->
  server (requests w) (GithubGet (contents_url repo))
  = Response status link (FileContents content) ->
  (N.leb 200 status && N.ltb status 300)%bool = true ->
  JSON_parse (base64_utf8 content) = Some parsed ->
  exists repoMetadata',
    collect_one repoMetadata repo w
    = (Ok repoMetadata',
       mkWorld (GithubGet (contents_url repo) :: requests w) (files w)
         (Info (chalk_green figures_tick ++ js " " ++ repo
                ++ js " found .repo-metadata.json") :: console w))
    /\ assoc repo repoMetadata' = Some parsed
    /\ (forall other, other <> repo ->
          assoc other repoMetadata' = assoc other repoMetadata)
    /\ (NoDup (map fst repoMetadata) -> NoDup (map fst repoMetadata'))
    /\ (assoc repo repoMetadata = None ->
        repoMetadata' = repoMetadata ++ [(repo, parsed)])
    /\ (assoc repo repoMetadata <> None ->
        map fst repoMetadata' = map fst repoMetadata).
Proof.
  intros Hk Hs Hr Hp. exists (object_set repo parsed repoMetadata).
  split; [|split; [apply object_set_same|split; [|split; [|split]]]].
  - unfold collect_one, try_catch, bind, github_request, bind, exchange.
    fold (contents_url repo). rewrite Hs, Hr. unfold ret. cbn [snd].
    rewrite Hp. reflexivity.
  - intros other Ho. apply object_set_other. congruence.
  - apply object_set_NoDup.
  - intros Hnew. rewrite object_set_slash by exact Hk. now apply assoc_set_new.
  - intros Hold. rewrite object_set_slash by exact Hk. rewrite assoc_set_keys.
    now destruct (assoc repo repoMetadata).
Qed.

Lemma collect_loop_outcome (repos : list jsstring) :
  forall repoMetadata w r w',
    collect_loop repos repoMetadata w = (r, w') ->
    exists done rest,
      repos = done ++ rest
      /\ requests w' = fetches done ++ requests w
      /\ forall repoMetadata',
           r = Ok repoMetadata' ->
           rest = []
           /\ length (console w') = length repos + length (console w)
           /\ (NoDup (map fst repoMetadata) -> NoDup (map fst repoMetadata'))
           /\ (forall k v, In (k, v) repoMetadata' ->
                 In (k, v) repoMetadata
                 \/ (In k repos
                     /\ exists content,
                          JSON_parse (base64_utf8 content) = Some v)).
Proof.
  induction repos as [|repo repos IH]; intros rm w r w' H; simpl in H.
  - unfold ret in H. injection H as <- <-. exists [], [].
    split; [reflexivity|]. split; [reflexivity|].
    intros rm' Heq. injection Heq as <-. repeat split; auto.
  - unfold bind in H. destruct (collect_one rm repo w) as [[rm1|e] w1] eqn:E;
      apply collect_one_outcome in E as (Hr1 & _ & Hok).
    + apply IH in H as (done & rest & -> & Hr & Hall).
      exists (repo :: done), rest. split; [reflexivity|].
      split; [rewrite Hr, Hr1; unfold fetches; simpl;
              now rewrite <- !app_assoc|].
      intros rm' ->. destruct (Hall rm' eq_refl) as (-> & Hc & Hn & Hv).
      destruct (Hok rm1 eq_refl) as ((line & Hl) & Hrm).
      split; [reflexivity|]. split; [rewrite Hc, Hl; simpl; lia|].
      split.
      * intros Hnd. apply Hn.
        destruct Hrm as [->|(content & parsed & _ & ->)];
          [assumption|now apply object_set_NoDup].
      * intros k v Hin. destruct (Hv k v Hin) as [Hin1|(Hk & Hp)];
          [|right; split; [now right|assumption]].
        destruct Hrm as [->|(content & parsed & Hp & ->)]; [now left|].
        apply object_set_In in Hin1 as [Heq|Hin1]; [|now left].
        injection Heq as -> ->. right. split; [now left|eauto].
    + injection H as <- <-. exists [repo], repos.
      split; [reflexivity|]. split; [now rewrite Hr1|]. discriminate.
Qed.

(** Every entry of the mapping after the loop was there before it or
    was fetched by it. *)
Lemma collect_loop_fetched (repos : list jsstring) :
  forall repoMetadata w repoMetadata' w',
    collect_loop repos repoMetadata w = (Ok repoMetadata', w') ->
    forall k v,
      In (k, v) repoMetadata' ->
      In (k, v) repoMetadata \/ (In k repos /\ fetched_as w w' k v).
Proof.
  induction repos as [|repo repos IH]; intros rm w rm' w' H k v Hin;
    simpl in H.
  - unfold ret in H. injection H as <- <-. now left.
  - unfold bind in H.
    destruct (collect_one rm repo w) as [[rm1|e] w1] eqn:E; [|discriminate].
    pose proof (collect_one_outcome _ _ _ E) as (Hr1 & _).
    pose proof (collect_loop_outcome _ _ _ H) as (done & rest & _ & Hr & _).
    destruct (IH _ _ _ _ H k v Hin) as [Hin1|(Hk & Hf)].
    + destruct (collect_one_stored _ _ _ E) as [->|(parsed & -> & Hf)];
        [now left|].
      apply object_set_In in Hin1 as [Heq|Hin1]; [|now left].
      injection Heq as -> ->. right. split; [now left|].
      eapply (@fetched_as_wider w w w1 w' [] (fetches done));
        [reflexivity|exact Hr|exact Hf].
    + right. split; [now right|].
      eapply (@fetched_as_wider w w1 w' w'
                [GithubGet (contents_url repo)] []);
        [exact Hr1|reflexivity|exact Hf].
Qed.

(** X7.  A collection for repositories whose identifiers have a slash,
    when it completes, has made one request for each repository, in the
    order of the list, and printed one line for each; it has written no
    file; the mapping has one entry for a repository, however often the
    list names it, every key is a repository of the list and its value
    is the parsed content of an answer to the request for the metadata
    file of that repository, made in this collection. *)
Theorem collectRepoMetadata_mapping (repos : list jsstring)
    (w w' : World) (repoMetadata : list (jsstring * json)) :
  Forall (In slash) repos ->
  collectRepoMetadata repos w = (Ok repoMetadata, w') ->
  requests w' = fetches repos ++ requests w
  /\ length (console w') = length repos + length (console w)
  /\ files w' = files w
  /\ NoDup (map fst repoMetadata)
  /\ length repoMetadata <= length repos
  /\ forall k v,
       In (k, v) repoMetadata ->
       In k repos /\ In slash k /\ fetched_as w w' k v.
Proof.
  unfold collectRepoMetadata. intros Hslash H.
  pose proof (collect_loop_files _ _ _ H) as Hf.
  pose proof (collect_loop_fetched _ _ _ H) as Hv.
  apply collect_loop_outcome in H as (done & rest & Hd & Hr & Hall).
  destruct (Hall _ eq_refl) as (-> & Hc & Hn & _).
  rewrite app_nil_r in Hd. subst done.
  assert (forall k v, In (k, v) repoMetadata ->
            In k repos /\ In slash k /\ fetched_as w w' k v) as Hkv.
  { intros k v Hin. destruct (Hv k v Hin) as [[]|(Hk & Hfe)].
    split; [assumption|]. split; [|assumption].
    rewrite Forall_forall in Hslash. now apply Hslash. }
  repeat split; try assumption; try (now apply (Hkv k v)).
  - apply Hn. constructor.
  - rewrite <- (length_map fst). apply NoDup_incl_length; [apply Hn; constructor|].
    intros k Hk. apply in_map_iff in Hk as ([k' v] & <- & Hin).
    now apply (Hkv k' v).
Qed.

End Collection.

Lemma collect_one_found_witness :
  exists repoMetadata',
    collect_one (host := scenario_host) [] (js "googleapis/nodejs-vision")
      world0
    = (Ok repoMetadata',
       mkWorld [GithubGet (contents_url (js "googleapis/nodejs-vision"))]
         (files world0)
         [Info ([10004%N] ++ js " " ++ js "googleapis/nodejs-vision"
                ++ js " found .repo-metadata.json")])
    /\ assoc (js "googleapis/nodejs-vision") repoMetadata'
       = Some vision_metadata
    /\ (forall other, other <> js "googleapis/nodejs-vision" ->
          assoc other repoMetadata' = assoc other [])
    /\ (NoDup (map fst (@nil (jsstring * json))) ->
        NoDup (map fst repoMetadata'))
    /\ (assoc (js "googleapis/nodejs-vision") (@nil (jsstring * json)) = None ->
        repoMetadata' = [] ++ [(js "googleapis/nodejs-vision", vision_metadata)])
    /\ (assoc (js "googleapis/nodejs-vision") (@nil (jsstring * json)) <> None ->
        map fst repoMetadata' = map fst (@nil (jsstring * json))).
Proof.
  apply (collect_one_found (host := scenario_host) []
           (js "googleapis/nodejs-vision") (content := js "vision") world0
           (status := 200) (link := None));
    [vm_compute; tauto|reflexivity|reflexivity|reflexivity].
Defined.

Lemma collectRepoMetadata_mapping_witness :
  let repos := [js "googleapis/nodejs-vision"; js "googleapis/none";
                js "googleapis/nodejs-vision"] in
  let run := collectRepoMetadata (host := scenario_host) repos world0 in
  requests (snd run) = fetches repos ++ requests world0
  /\ length (console (snd run)) = length repos + length (console world0)
  /\ files (snd run) = files world0
  /\ NoDup (map fst [(js "googleapis/nodejs-vision", vision_metadata)])
  /\ length [(js "googleapis/nodejs-vision", vision_metadata)]
     <= length repos
  /\ forall k v,
       In (k, v) [(js "googleapis/nodejs-vision", vision_metadata)] ->
       In k repos /\ In slash k
       /\ fetched_as (host := scenario_host) world0 (snd run) k v.
Proof.
  apply (collectRepoMetadata_mapping (host := scenario_host)).
  - repeat constructor; vm_compute; tauto.
  - vm_compute. reflexivity.
Defined.

(** ** Discovery and the run as a whole *)

Section Run.
Context {host : Host}.

Lemma github_request_trace (url : jsstring) (w w' : World)
    (r : result (option jsstring * body)) :
  github_request url w = (r, w') ->
  files w' = files w /\ console w' = console w
  /\ requests w' = GithubGet url :: requests w.
Proof.
  unfold github_request, bind, exchange, ret, throw.
  cbn [requests files console].
  destruct (server (requests w) (GithubGet url)) as [status link data|];
    [|intros H; now injection H as <- <-].
  destruct (N.leb 200 status && N.ltb status 300)%bool;
    intros H; now injection H as <- <-.
Qed.

Lemma getRepos_loop_trace (fuel : nat) :
  forall url repos w r w',
    getRepos_loop fuel url repos w = Some (r, w') ->
    files w' = files w /\ console w' = console w
    /\ exists rs, requests w' = rs ++ requests w /\ Forall is_github rs.
Proof.
  induction fuel as [|fuel IH]; intros url repos w r w' H; simpl in H;
    [discriminate|].
  destruct (github_request url w) as [[[link data]|e] w1] eqn:Hr;
    apply github_request_trace in Hr as (Hf & Hc & Hl);
    assert (exists rs, requests w1 = rs ++ requests w /\ Forall is_github rs)
      as Hone by (exists [GithubGet url]; split;
                  [assumption|repeat constructor]).
  - destruct data as [names|content|];
      try (injection H as <- <-; auto).
    destruct (next_url link) as [[url'|]|e];
      try (injection H as <- <-; auto).
    apply IH in H as (Hf2 & Hc2 & rs & Hr2 & Hk).
    split; [congruence|]. split; [congruence|].
    exists (rs ++ [GithubGet url]). rewrite Hr2, Hl, <- app_assoc.
    split; [reflexivity|]. apply Forall_app. split; [assumption|].
    repeat constructor.
  - injection H as <- <-. auto.
Qed.

(** X8.  Discovery has no bound of its own on the number of pages: as
    long as every response names a next page it keeps requesting, so
    against a remote side that always does it returns for no amount of
    fuel. *)
Theorem getRepos_endless (P : jsstring -> Prop) :
  (forall history url,
     P url ->
     exists status link names url',
       server history (GithubGet url)
       = Response status link (SearchResults names)
       /\ (N.leb 200 status && N.ltb status 300)%bool = true
       /\ next_url link = Ok (Some url') /\ P url') ->
  P search_url ->
  forall fuel w, getRepos fuel w = None.
Proof.
  intros Hnext H0 fuel. unfold getRepos. generalize (@nil jsstring).
  generalize search_url H0.
  induction fuel as [|fuel IH]; intros url Hu repos w; [reflexivity|].
  simpl. unfold github_request, bind, exchange.
  cbn [requests files console].
  destruct (Hnext (requests w) url Hu)
    as (status & link & names & url' & Hs & Hr & Hn & Hu').
  rewrite Hs, Hr. unfold ret. rewrite Hn. now apply IH.
Qed.

(** X9.  Every status outside 200-299 on a page of the search, 404
    included, is thrown; and an error of the discovery ends [main] with
    that error after search requests only: nothing printed, nothing
    written, no metadata file requested. *)
Theorem discovery_failure :
  (forall fuel url repos w status link data,
     server (requests w) (GithubGet url) = Response status link data ->
     (N.leb 200 status && N.ltb status 300)%bool = false ->
     getRepos_loop (S fuel) url repos w
     = Some (Err (HttpError status),
             mkWorld (GithubGet url :: requests w) (files w) (console w)))
  /\ (forall fuel w e w1,
        getRepos fuel w = Some (Err e, w1) ->
        main fuel w = Some (Err e, w1)
        /\ files w1 = files w /\ console w1 = console w
        /\ exists rs, requests w1 = rs ++ requests w /\ Forall is_github rs).
Proof.
  split.
  - intros fuel url repos w status link data Hs Hr. simpl.
    unfold github_request, bind, exchange. cbn [requests files console].
    now rewrite Hs, Hr.
  - intros fuel w e w1 H. split; [unfold main; now rewrite H|].
    now apply getRepos_loop_trace in H.
Qed.

Lemma main_eq (fuel : nat) (w : World) :
  main fuel w
  = match getRepos fuel w with
    | None => None
    | Some (Err e, w1) => Some (Err e, w1)
    | Some (Ok repos, w1) =>
      Some (match collectRepoMetadata repos (announced repos w1) with
            | (Ok repoMetadata, w2) => generateReadme repoMetadata w2
            | (Err e, w2) => (Err e, w2)
            end)
    end.
Proof.
  unfold main. destruct (getRepos fuel w) as [[[repos|e] w1]|]; reflexivity.
Qed.


(** X11.  When a run completes that discovered repositories whose
    identifiers have a slash, every entry of the array behind the two
    files stems from a repository that was discovered: it is the parsed
    content of an answer, in this run, to the request for the metadata
    file of that repository, changed in the two derived properties only.
    There are no more entries than repositories. *)
Theorem main_provenance (fuel : nat) (w w' w1 : World)
    (repos : list jsstring) :
  main fuel w = Some (Ok tt, w') ->
  getRepos fuel w = Some (Ok repos, w1) ->
  Forall (In slash) repos ->
  exists sorted,
    written w w' sorted
    /\ length sorted <= length repos
    /\ Forall (fun lib => exists repo metadata,
                 In repo repos /\ In slash repo
                 /\ fetched_as w w' repo metadata
                 /\ only_derived_fields_changed metadata lib) sorted.
Proof.
  rewrite main_eq. intros H Hg Hslash. rewrite Hg in H.
  pose proof (getRepos_loop_files _ _ _ _ Hg) as Hf1.
  apply getRepos_loop_trace in Hg as (_ & _ & searches & Hsearch & _).
  injection H as H.
  destruct (collectRepoMetadata repos (announced repos w1))
    as [[rm|e] w2] eqn:Hc; [|discriminate].
  unfold collectRepoMetadata in Hc.
  pose proof (collect_loop_files _ _ _ Hc) as Hf2.
  pose proof (collect_loop_fetched _ _ _ Hc) as Hv.
  apply collect_loop_outcome in Hc as (done & rest & Hd & _ & Hall).
  destruct (Hall rm eq_refl) as (-> & _ & Hn & _).
  change (files (announced repos w1)) with (files w1) in Hf2.
  pose proof (generateReadme_requests rm w2) as (probes & Hprobes & _).
  rewrite H in Hprobes. cbn [snd] in Hprobes.
  destruct (generateReadme_written _ _ H)
    as (libs & w3 & sorted & Hcl & Hs & Hw).
  exists sorted. split; [|split].
  - destruct Hw as (template & rows & Ht & Hrows & Hj & Hm).
    exists template, rows. rewrite <- Hf1, <- Hf2. auto.
  - rewrite <- (Permutation_length (sort_by_perm _ _ Hs)).
    apply collect_libraries_count in Hcl. simpl in Hcl. rewrite Hcl.
    eapply Nat.le_trans; [apply filter_length_le|].
    rewrite <- (length_map fst). apply NoDup_incl_length; [apply Hn; constructor|].
    intros k Hk. apply in_map_iff in Hk as ([k' v] & <- & Hin).
    destruct (Hv k' v Hin) as [[]|[Hin' _]]. exact Hin'.
  - apply collect_libraries_origin in Hcl as (news & -> & Ho). simpl in *.
    eapply Permutation_Forall; [eapply sort_by_perm; exact Hs|].
    eapply Forall_impl; [|exact Ho].
    intros lib (k & md & wx & wy & Hin & Hp).
    destruct (Hv k md Hin) as [[]|(Hk & Hfe)].
    exists k, md. split; [assumption|].
    split; [rewrite Forall_forall in Hslash; now apply Hslash|].
    split; [|now apply pushed_frame in Hp].
    eapply (@fetched_as_wider _ w (announced repos w1) w2 w' searches probes);
      [exact Hsearch|exact Hprobes|exact Hfe].
Qed.

End Run.

Lemma getRepos_endless_witness :
  getRepos (host := endless_host) 1000 world0 = None.
Proof.
  apply (getRepos_endless (host := endless_host)
           (fun url => url = search_url \/ url = second_page)).
  - intros history url [->| ->].
    + exists 200%N, (Some second_page), [js "googleapis/a"], second_page.
      repeat split; try reflexivity. now right.
    + exists 200%N, (Some second_page), [js "googleapis/b"], second_page.
      repeat split; try reflexivity. now right.
  - now left.
Defined.

Lemma discovery_failure_witness :
  let w1 := mkWorld [GithubGet search_url] (files world0) [] in
  main (host := missing_search_host) 1 world0 = Some (Err (HttpError 404), w1)
  /\ files w1 = files world0 /\ console w1 = console world0
  /\ exists rs, requests w1 = rs ++ requests world0 /\ Forall is_github rs.
Proof.
  apply (proj2 (discovery_failure (host := missing_search_host)) 1 world0).
  apply (proj1 (discovery_failure (host := missing_search_host)) 0 search_url
           [] world0 404%N None OtherBody); reflexivity.
Defined.


Lemma main_provenance_witness :
  exists w' sorted,
    written (host := scenario_host) world0 w' sorted
    /\ length sorted
       <= length [js "googleapis/nodejs-vision"; js "googleapis/none"]
    /\ Forall (fun lib => exists repo metadata,
                 In repo [js "googleapis/nodejs-vision"; js "googleapis/none"]
                 /\ In slash repo
                 /\ fetched_as (host := scenario_host) world0 w' repo metadata
                 /\ only_derived_fields_changed metadata lib) sorted.
Proof.
  eexists.
  apply (main_provenance (host := scenario_host) 1 world0
           (w1 := mkWorld [GithubGet search_url] (files world0) [])).
  - vm_compute. reflexivity.
  - vm_compute. reflexivity.
  - repeat constructor; vm_compute; tauto.
Defined.

(** ** The template and its placeholder *)

Lemma find_first_eq (pat s : jsstring) :
  find_first pat s
  = if startsWith s pat then Some ([], skipn (length pat) s)
    else match s with
         | [] => None
         | c :: s' =>
           match find_first pat s' with
           | Some (b, a) => Some (c :: b, a)
           | None => None
           end
         end.
Proof. destruct s; reflexivity. Qed.

Lemma find_first_found (pat b a : jsstring) :
  (forall i, i < length b -> occurs_at pat (b ++ pat ++ a) i = false) ->
  find_first pat (b ++ pat ++ a) = Some (b, a).
Proof.
  induction b as [|c b IH]; intros Hfirst; cbn [app]; rewrite find_first_eq.
  - rewrite startsWith_app.
    now rewrite skipn_app, skipn_all, Nat.sub_diag.
  - pose proof (Hfirst 0 ltac:(simpl; lia)) as H0.
    unfold occurs_at in H0. cbn [skipn app] in H0. rewrite H0.
    rewrite IH; [reflexivity|].
    intros i Hi. apply (Hfirst (S i)). simpl. lia.
Qed.

Lemma find_first_absent (pat s : jsstring) :
  (forall i, i <= length s -> occurs_at pat s i = false) ->
  find_first pat s = None.
Proof.
  induction s as [|c s IH]; intros Hno; rewrite find_first_eq;
    pose proof (Hno 0 ltac:(lia)) as H0;
    unfold occurs_at in H0; simpl skipn in H0; rewrite H0; [reflexivity|].
  rewrite IH; [reflexivity|].
  intros i Hi. apply (Hno (S i)). simpl. lia.
Qed.

Lemma expand_replacement_other (matched before after r : jsstring) (c : N) :
  N.eqb c 36 = false ->
  expand_replacement matched before after (c :: r)
  = c :: expand_replacement matched before after r.
Proof.
  intros H. destruct c as [|p]; [reflexivity|].
  repeat (destruct p as [p|p|]; try reflexivity; try discriminate H).
Qed.

Lemma expand_replacement_plain (matched before after t r : jsstring) :
  dollar_free t = true ->
  expand_replacement matched before after (t ++ r)
  = t ++ expand_replacement matched before after r.
Proof.
  induction t as [|c t IH]; intros H; [reflexivity|].
  unfold dollar_free in H. simpl forallb in H.
  apply andb_true_iff in H as [Hc Ht]. apply negb_true_iff in Hc.
  simpl app. rewrite expand_replacement_other by assumption.
  now rewrite IH.
Qed.

(** X12.  The substitution of line 123.  A template without the
    placeholder is written as it is, the rows dropped.  Otherwise the
    first occurrence of the placeholder, and only that, is replaced: by
    the rows as they are when they contain no dollar sign, whereas a
    dollar sign followed by an ampersand in them puts the placeholder
    back. *)
Theorem template_substitution :
  (forall pat repl s,
     (forall i, i <= length s -> occurs_at pat s i = false) ->
     string_replace pat repl s = s)
  /\ (forall pat repl b a,
        (forall i, i < length b -> occurs_at pat (b ++ pat ++ a) i = false) ->
        dollar_free repl = true ->
        string_replace pat repl (b ++ pat ++ a) = b ++ repl ++ a)
  /\ (forall pat t1 t2 b a,
        (forall i, i < length b -> occurs_at pat (b ++ pat ++ a) i = false) ->
        dollar_free t1 = true -> dollar_free t2 = true ->
        string_replace pat (t1 ++ js "$&" ++ t2) (b ++ pat ++ a)
        = b ++ (t1 ++ pat ++ t2) ++ a).
Proof.
  split; [|split].
  - intros pat repl s Hno. unfold string_replace.
    now rewrite find_first_absent.
  - intros pat repl b a Hfirst Hd. unfold string_replace.
    rewrite find_first_found by assumption.
    rewrite <- (app_nil_r repl) at 1.
    rewrite expand_replacement_plain by assumption.
    simpl. now rewrite app_nil_r.
  - intros pat t1 t2 b a Hfirst H1 H2. unfold string_replace.
    rewrite find_first_found by assumption.
    rewrite expand_replacement_plain by assumption.
    change (js "$&" ++ t2) with (36%N :: 38%N :: t2).
    change (expand_replacement pat b a (36%N :: 38%N :: t2))
      with (pat ++ expand_replacement pat b a t2).
    rewrite <- (app_nil_r t2) at 1.
    rewrite expand_replacement_plain by assumption.
    simpl. now rewrite app_nil_r.
Qed.

Lemma template_substitution_witness :
  string_replace (js "{{libraries}}") (js "| row |")
    (js "# Libraries " ++ js "{{libraries}}" ++ js " and {{libraries}}")
  = js "# Libraries " ++ js "| row |" ++ js " and {{libraries}}".
Proof.
  apply (proj1 (proj2 template_substitution)); [|reflexivity].
  apply (below_check
           (fun i => occurs_at (js "{{libraries}}")
                       (js "# Libraries " ++ js "{{libraries}}"
                        ++ js " and {{libraries}}") i)).
  vm_compute. reflexivity.
Defined.

(** ** The candidate URL of every input *)

Lemma leftmost_split (ok : jsstring -> bool) (s : jsstring) :
  ok [] = true ->
  exists pre tail,
    s = pre ++ tail /\ ok tail = true
    /\ forall i, i < length pre -> ok (skipn i (pre ++ tail)) = false.
Proof.
  intros Hnil. induction s as [|c s IH].
  - exists [], []. repeat split; [assumption|]. simpl. lia.
  - destruct (ok (c :: s)) eqn:E.
    + exists [], (c :: s). repeat split; [assumption|]. simpl. lia.
    + destruct IH as (pre & tail & -> & Hok & Hmin).
      exists (c :: pre), tail. repeat split; [assumption|].
      intros [|i] Hi; [exact E|]. apply Hmin. simpl in Hi. lia.
Qed.

Lemma slash_split (s : jsstring) :
  exists base n, s = base ++ repeat slash n /\ last base 0%N <> slash.
Proof.
  induction s as [|c s IH] using rev_ind.
  - exists [], 0. split; [reflexivity|]. discriminate.
  - destruct (N.eq_dec c slash) as [->|Hc].
    + destruct IH as (base & n & -> & Hl). exists base, (S n).
      split; [|assumption].
      rewrite <- app_assoc. f_equal. simpl. now rewrite repeat_cons.
    + exists (s ++ [c]), 0. rewrite app_nil_r. split; [reflexivity|].
      now rewrite last_last.
Qed.

Lemma not_docs_tail (s : jsstring) (i : nat) :
  i < length s ->
  occurs_at (js "docs/") s i = false ->
  docs_tail (skipn i s) = false.
Proof.
  intros Hi Ho. unfold occurs_at in Ho. unfold docs_tail.
  destruct (skipn i s) as [|c t] eqn:E.
  - apply (f_equal (@length N)) in E. rewrite length_skipn in E.
    simpl in E. lia.
  - now rewrite Ho.
Qed.

(** X13.  The derivation of lines 85-90 on every input: the result is a
    front part of the URL with one slash for its trailing slashes,
    followed by [docs/getting-support].  When [docs/] does not occur in
    the URL once its trailing slashes are replaced by one slash, that is
    the front part, so the path is appended.  A URL that ends in [docs],
    with or without slashes after it and with no [docs/] before, has
    [docs/] once the slash is there: only [/getting-support] is
    appended. *)
Theorem supportDocsUrl_total :
  (forall url,
     exists base n pre tail,
       url = base ++ repeat slash n /\ last base 0%N <> slash
       /\ base ++ js "/" = pre ++ tail /\ docs_tail tail = true
       /\ supportDocsUrl url = pre ++ js "docs/getting-support")
  /\ (forall base n,
        last base 0%N <> slash ->
        (forall i, i <= length base ->
           occurs_at (js "docs/") (base ++ js "/") i = false) ->
        supportDocsUrl (base ++ repeat slash n)
        = base ++ js "/docs/getting-support")
  /\ (forall front n,
        (forall i, i < length front ->
           occurs_at (js "docs/") (front ++ js "docs/") i = false) ->
        supportDocsUrl ((front ++ js "docs") ++ repeat slash n)
        = (front ++ js "docs") ++ js "/getting-support").
Proof.
  split; [|split].
  - intros url. destruct (slash_split url) as (base & n & -> & Hl).
    destruct (leftmost_split docs_tail (base ++ js "/") eq_refl)
      as (pre & tail & Hs & Hok & Hmin).
    exists base, n, pre, tail. repeat split; try assumption.
    unfold supportDocsUrl. rewrite (slash_normalize base n Hl), Hs.
    now apply (replace_anchored _ docs_tail docs_tail_matches).
  - intros base n Hl Hno. unfold supportDocsUrl.
    rewrite (slash_normalize base n Hl).
    rewrite <- (app_nil_r (base ++ js "/")).
    rewrite (replace_anchored _ docs_tail docs_tail_matches);
      [now rewrite <- app_assoc|reflexivity|].
    intros i Hi. rewrite app_nil_r. rewrite length_app in Hi. simpl in Hi.
    apply not_docs_tail; [rewrite length_app; simpl; lia|].
    apply Hno. lia.
  - intros front n Hno. unfold supportDocsUrl.
    rewrite slash_normalize.
    + rewrite <- !app_assoc.
      change (js "docs" ++ js "/") with (js "docs/").
      change (js "docs" ++ js "/getting-support")
        with (js "docs/getting-support").
      apply (replace_anchored _ docs_tail docs_tail_matches);
        [reflexivity|].
      intros i Hi. apply not_docs_tail; [rewrite length_app; lia|].
      now apply Hno.
    + change (js "docs") with (js "doc" ++ [115%N]).
      rewrite app_assoc, last_last. discriminate.
Qed.

Lemma supportDocsUrl_total_witness :
  supportDocsUrl (js "https://cloud.google.com/foo" ++ repeat slash 2)
  = js "https://cloud.google.com/foo" ++ js "/docs/getting-support"
  /\ supportDocsUrl
       ((js "https://cloud.google.com/datastore/" ++ js "docs")
        ++ repeat slash 0)
     = (js "https://cloud.google.com/datastore/" ++ js "docs")
       ++ js "/getting-support".
Proof.
  split.
  - apply (proj1 (proj2 supportDocsUrl_total)).
    + vm_compute. discriminate.
    + intros i Hi.
      apply (@below_check
               (fun i => occurs_at (js "docs/")
                           (js "https://cloud.google.com/foo" ++ js "/") i)
               (S (length (js "https://cloud.google.com/foo"))));
        [vm_compute; reflexivity|lia].
  - apply (proj2 (proj2 supportDocsUrl_total)).
    intros i Hi.
    apply (@below_check
             (fun i => occurs_at (js "docs/")
                         (js "https://cloud.google.com/datastore/"
                          ++ js "docs/") i)
             (length (js "https://cloud.google.com/datastore/")));
      [vm_compute; reflexivity|exact Hi].
Defined.

Lemma startsWith_firstn (p s : jsstring) :
  startsWith s p = startsWith (firstn (length p) s) p.
Proof.
  revert s. induction p as [|c p IH]; intros s; [reflexivity|].
  destruct s as [|x s]; [reflexivity|]. cbn [length firstn startsWith].
  now rewrite <- IH.
Qed.

Lemma startsWith_long (p q x y : jsstring) :
  length p <= length q -> startsWith (q ++ x) p = startsWith (q ++ y) p.
Proof.
  intros H. rewrite (startsWith_firstn p (q ++ x)), (startsWith_firstn p (q ++ y)).
  rewrite !firstn_app. replace (length p - length q) with 0 by lia.
  now rewrite !firstn_0.
Qed.

Lemma no_line_terminator_skipn (s : jsstring) (i : nat) :
  no_line_terminator s = true -> no_line_terminator (skipn i s) = true.
Proof.
  revert i. induction s as [|c s IH]; intros [|i] H; try assumption.
  simpl skipn. apply IH. unfold no_line_terminator in *. simpl in H.
  now apply andb_true_iff in H.
Qed.

Lemma slash_before_docs (q0 x : jsstring) :
  startsWith (q0 ++ [slash]) (js "docs/") = false ->
  startsWith ((q0 ++ [slash]) ++ x) (js "docs/") = false.
Proof.
  intros H. change (js "docs/") with [100; 111; 99; 115; 47]%N in *.
  destruct q0 as [|a [|b [|c [|d q0]]]].
  - reflexivity.
  - cbn [app startsWith]. destruct (N.eqb a 100); reflexivity.
  - cbn [app startsWith]. destruct (N.eqb a 100); [|reflexivity].
    destruct (N.eqb b 111); reflexivity.
  - cbn [app startsWith]. destruct (N.eqb a 100); [|reflexivity].
    destruct (N.eqb b 111); [|reflexivity].
    destruct (N.eqb c 99); reflexivity.
  - rewrite (startsWith_long [100; 111; 99; 115; 47]%N
               ((a :: b :: c :: d :: q0) ++ [slash]) x []);
      [now rewrite app_nil_r|].
    rewrite length_app. simpl. lia.
Qed.

Lemma docs_tail_without (c : N) (s : jsstring) :
  startsWith (c :: s) (js "docs/") = false -> docs_tail (c :: s) = false.
Proof. intros H. unfold docs_tail. now rewrite H. Qed.

(** X14.  On a URL without line breaks the derivation of lines 85-90 is
    idempotent: a URL that already is a derived support URL is derived to
    itself, the path being replaced by itself and not appended again. *)
Theorem supportDocsUrl_idempotent (url : jsstring) :
  no_line_terminator url = true ->
  supportDocsUrl (supportDocsUrl url) = supportDocsUrl url.
Proof.
  intros Hurl. destruct (slash_split url) as (base & n & -> & Hl).
  destruct (leftmost_split docs_tail (base ++ js "/") eq_refl)
    as (pre & tail & Hs & Hok & Hmin).
  assert (supportDocsUrl (base ++ repeat slash n)
          = pre ++ js "docs/getting-support") as Hfirst.
  { unfold supportDocsUrl. rewrite (slash_normalize base n Hl), Hs.
    now apply (replace_anchored _ docs_tail docs_tail_matches). }
  rewrite Hfirst. unfold supportDocsUrl.
  assert (last (pre ++ js "docs/getting-support") 0%N <> slash) as Hl2.
  { change (js "docs/getting-support")
      with (js "docs/getting-suppor" ++ [116%N]).
    rewrite app_assoc, last_last. discriminate. }
  pose proof (slash_normalize (pre ++ js "docs/getting-support") 0 Hl2) as Hn.
  simpl repeat in Hn. rewrite app_nil_r in Hn. rewrite Hn.
  rewrite <- app_assoc.
  apply (replace_anchored _ docs_tail docs_tail_matches); [reflexivity|].
  intros i Hi.
  assert (no_line_terminator (pre ++ tail) = true) as Hnl.
  { rewrite <- Hs. rewrite no_line_terminator_app in *.
    apply andb_true_iff in Hurl as [Hb _]. now rewrite Hb. }
  pose proof (Hmin i Hi) as Hm.
  pose proof (@no_line_terminator_skipn _ i Hnl) as Hni.
  rewrite skipn_app in Hm, Hni |- *.
  replace (i - length pre) with 0 in * by lia. simpl skipn in *.
  destruct (skipn i pre) as [|c q] eqn:Eq.
  { apply (f_equal (@length N)) in Eq. rewrite length_skipn in Eq.
    simpl in Eq. lia. }
  assert (startsWith ((c :: q) ++ tail) (js "docs/") = false) as Hsw.
  { unfold docs_tail in Hm. cbn [app] in Hm, Hni |- *.
    rewrite Hni, andb_true_r in Hm. exact Hm. }
  assert (startsWith ((c :: q) ++ js "docs/getting-support" ++ js "/")
            (js "docs/") = false) as Hgoal.
  { destruct tail as [|t tail].
    - rewrite app_nil_r in Hs, Hsw. subst pre.
      assert (exists q0, c :: q = q0 ++ [slash]) as [q0 Hq0].
      { rewrite skipn_app in Eq. rewrite length_app in Hi. simpl in Hi.
        replace (i - length base) with 0 in Eq by lia. simpl skipn in Eq.
        exists (skipn i base). now rewrite <- Eq. }
      rewrite Hq0 in *. now apply slash_before_docs.
    - unfold docs_tail in Hok. apply andb_true_iff in Hok as [Hd _].
      apply startsWith_inv in Hd as [r Hr]. rewrite Hr in Hsw.
      etransitivity; [|exact Hsw].
      change (js "docs/getting-support" ++ js "/")
        with (js "docs/" ++ js "getting-support/").
      rewrite !app_assoc.
      apply startsWith_long. rewrite length_app. simpl. lia. }
  apply (docs_tail_without c (q ++ js "docs/getting-support" ++ js "/")).
  exact Hgoal.
Qed.

Lemma supportDocsUrl_idempotent_witness :
  supportDocsUrl
    (supportDocsUrl (js "https://cloud.google.com/vision/docs/reference"))
  = supportDocsUrl (js "https://cloud.google.com/vision/docs/reference").
Proof. apply supportDocsUrl_idempotent. reflexivity. Defined.

(** ** Trimming and the Stackdriver test *)

Lemma trimStart_split (s : jsstring) :
  exists ws, all_trimmable ws = true /\ s = ws ++ trimStart s.
Proof.
  induction s as [|c s (ws & Hw & Hs)]; [now exists []|].
  simpl. destruct (is_trimmable c) eqn:E.
  - exists (c :: ws). split; [unfold all_trimmable; simpl; now rewrite E|].
    simpl. now rewrite <- Hs.
  - now exists [].
Qed.

Lemma trimStart_skip (ws s : jsstring) :
  all_trimmable ws = true -> trimStart (ws ++ s) = trimStart s.
Proof.
  induction ws as [|c ws IH]; intros H; [reflexivity|].
  unfold all_trimmable in H. simpl in H. apply andb_true_iff in H as [Hc Hw].
  simpl. rewrite Hc. now apply IH.
Qed.

Lemma trimStart_keeps (a b : jsstring) (c : N) :
  is_trimmable c = false -> exists x, trimStart (a ++ c :: b) = x ++ c :: b.
Proof.
  intros Hc. induction a as [|d a [x Hx]]; simpl.
  - rewrite Hc. now exists [].
  - destruct (is_trimmable d); [now exists x|now exists (d :: a)].
Qed.

Lemma trimEnd_split (s : jsstring) :
  exists ws, all_trimmable ws = true /\ s = trimEnd s ++ ws.
Proof.
  destruct (trimStart_split (rev s)) as (ws & Hw & Hs).
  exists (rev ws). split.
  - unfold all_trimmable in *. rewrite forallb_forall in *.
    intros x Hx. apply Hw. now apply in_rev.
  - unfold trimEnd. rewrite <- rev_app_distr, <- Hs. now rewrite rev_involutive.
Qed.

Lemma trimEnd_keeps (p r : jsstring) (c : N) :
  is_trimmable c = false ->
  exists r', trimEnd ((p ++ [c]) ++ r) = (p ++ [c]) ++ r'.
Proof.
  intros Hc. unfold trimEnd. rewrite !rev_app_distr. simpl rev at 2.
  simpl app at 2.
  destruct (@trimStart_keeps (rev r) (rev p) c Hc) as [x Hx].
  rewrite Hx. exists (rev x).
  rewrite rev_app_distr. simpl. rewrite rev_involutive.
  now rewrite <- app_assoc.
Qed.

Section Stackdriver.
Context {host : Host}.

(** X15.  The test of line 93 holds exactly for the names whose
    lower-cased form is white space, possibly none, followed by
    [stackdriver]. *)
Theorem is_stackdriver_spec (name_pretty : jsstring) :
  is_stackdriver name_pretty = true
  <-> exists ws rest,
        all_trimmable ws = true
        /\ toLowerCase name_pretty = ws ++ js "stackdriver" ++ rest.
Proof.
  unfold is_stackdriver, trim. split.
  - intros H. apply startsWith_inv in H as [r Hr].
    destruct (trimStart_split (toLowerCase name_pretty)) as (ws & Hw & Hs).
    destruct (trimEnd_split (trimStart (toLowerCase name_pretty)))
      as (ws2 & _ & He).
    exists ws, (r ++ ws2). split; [assumption|].
    rewrite Hs at 1. f_equal. rewrite He at 1. rewrite Hr.
    now rewrite <- app_assoc.
  - intros (ws & rest & Hw & ->).
    rewrite trimStart_skip by assumption.
    change (trimStart (js "stackdriver" ++ rest))
      with ((js "stackdrive" ++ [114%N]) ++ rest).
    destruct (@trimEnd_keeps (js "stackdrive") rest 114%N eq_refl)
      as [r' ->].
    apply startsWith_app.
Qed.

End Stackdriver.

(** ** Repository names as keys *)

(** X16.  A repository identifier, which contains a slash, is no array
    index, so the mapping lists repositories in the order in which their
    metadata was first stored: a new one goes last, and one stored again
    keeps its place and gets the new value. *)
Theorem repository_key_order (A : Type) (k : jsstring) (v : A)
    (l : list (jsstring * A)) :
  In slash k ->
  array_index k = None
  /\ (assoc k l = None -> object_set k v l = l ++ [(k, v)])
  /\ (assoc k l <> None -> map fst (object_set k v l) = map fst l)
  /\ assoc k (object_set k v l) = Some v.
Proof.
  intros Hk.
  assert (array_index k = None) as Hi.
  { destruct (array_index k) as [n|] eqn:E; [|reflexivity].
    apply array_index_digits in E. rewrite forallb_forall in E.
    apply E in Hk. discriminate Hk. }
  split; [assumption|]. unfold object_set. rewrite Hi.
  assert (assoc k l = None -> assoc_set k v l = l ++ [(k, v)]) as Hnew.
  { induction l as [|[k' v'] l IH]; simpl; [reflexivity|].
    destruct (jsstring_eqb k' k); [discriminate|].
    intros H. now rewrite IH. }
  split; [exact Hnew|]. split; [|apply assoc_set_same].
  intros H. rewrite assoc_set_keys. now destruct (assoc k l).
Qed.

Lemma repository_key_order_witness :
  array_index (js "googleapis/nodejs-vision") = None
  /\ (assoc (js "googleapis/nodejs-vision") catalog = None ->
      object_set (js "googleapis/nodejs-vision") JNull catalog
      = catalog ++ [(js "googleapis/nodejs-vision", JNull)])
  /\ (assoc (js "googleapis/nodejs-vision") catalog <> None ->
      map fst (object_set (js "googleapis/nodejs-vision") JNull catalog)
      = map fst catalog)
  /\ assoc (js "googleapis/nodejs-vision")
       (object_set (js "googleapis/nodejs-vision") JNull catalog)
     = Some JNull.
Proof.
  apply repository_key_order. vm_compute. tauto.
Defined.
